(** * Dungeon generation and input handling of the roguelike

    A shallow embedding of [procgen.py] and [input_handlers.py], with the
    properties of the design document stated and proved over it.

    Python integers are unbounded and are modelled by [Z].  Exceptions are
    modelled by a result type; the module-level random source,
    the tile array and the engine are explicit state. *)

From Stdlib Require Import ZArith List Lia Bool String.
Import ListNotations.
Open Scope Z_scope.

(** ** Exceptions *)

Inductive exn : Type :=
| ValueError   (* random.randint on an empty range, negative array shape *)
| IndexError   (* integer index outside the array *)
| SystemExit.  (* raised by the quit and escape paths *)

Inductive result (A : Type) : Type :=
| Ok (a : A)
| Raise (e : exn).
Arguments Ok {A} a.
Arguments Raise {A} e.

Definition bind {A B : Type} (m : result A) (k : A -> result B) : result B :=
  match m with
  | Ok a => k a
  | Raise e => Raise e
  end.

Notation "x <- m ;; k" := (bind m (fun x => k))
  (at level 61, m at next level, right associativity).
Notation "' p <- m ;; k" := (bind m (fun p => k))
  (at level 61, p pattern, m at next level, right associativity).

Module Procgen.

(** ** The random source

    [random] is the interpreter-wide generator.  Its future output is a
    sequence of raw draws; [pos] counts the draws consumed so far.  Every
    theorem quantifies over the whole sequence, hence over every outcome
    of every call. *)

Record RNG : Type := { draws : nat -> Z; pos : nat }.

Definition rng_next (g : RNG) : Z * RNG :=
  (draws g (pos g), {| draws := draws g; pos := S (pos g) |}).

(** [random.randint(a, b)]: an integer of [a..b], both ends included;
    [ValueError] when the range is empty. *)
Definition randint (a b : Z) (g : RNG) : result (Z * RNG) :=
  if b <? a then Raise ValueError
  else let (r, g') := rng_next g in Ok (a + r mod (b - a + 1), g').

(** [random.random() < 0.5] *)
Definition random_lt_half (g : RNG) : bool * RNG :=
  let (r, g') := rng_next g in (Z.even r, g').

(** ** RectangularRoom *)

Record RectangularRoom : Type :=
  { x1 : Z; y1 : Z; x2 : Z; y2 : Z }.

(** [RectangularRoom(x, y, width, height)] *)
Definition new_room (x y width height : Z) : RectangularRoom :=
  {| x1 := x; y1 := y; x2 := x + width; y2 := y + height |}.

(** [int(a / 2)]: true division followed by truncation towards zero.  The
    float quotient is exact for [|a| < 2^53], far beyond any map size. *)
Definition int_half (a : Z) : Z := Z.quot a 2.

Definition center (r : RectangularRoom) : Z * Z :=
  let center_x := int_half (x1 r + x2 r) in
  let center_y := int_half (y1 r + y2 r) in
  (center_x, center_y).

(** [slice(start, stop)] *)
Record slice : Type := { start : Z; stop : Z }.

Definition inner (r : RectangularRoom) : slice * slice :=
  ({| start := x1 r + 1; stop := x2 r |},
   {| start := y1 r + 1; stop := y2 r |}).

Definition intersects (self other : RectangularRoom) : bool :=
  (x1 self <=? x2 other)
  && (x2 self >=? x1 other)
  && (y1 self <=? y2 other)
  && (y2 self >=? y1 other).

(** ** The tile array *)

Inductive Tile : Type := wall | floor.

Definition Tile_eqb (a b : Tile) : bool :=
  match a, b with
  | wall, wall | floor, floor => true
  | _, _ => false
  end.

(** Modelled from the spec: [GameMap] ([game_map.py] is not among the
    sources).  The grid is a two-dimensional array of tiles of fixed
    [width] x [height], every tile a wall at creation, written in place
    during generation.  [tiles] is read at in-range coordinates only; the
    index and slice rules below are those of the array library the source
    indexes it with. *)
Record GameMap : Type :=
  { width : Z; height : Z; tiles : Z -> Z -> Tile }.

Definition new_GameMap (w h : Z) : result GameMap :=
  if (w <? 0) || (h <? 0) then Raise ValueError
  else Ok {| width := w; height := h; tiles := fun _ _ => wall |}.

(** An integer index [i] into an axis of length [len]: negative indices
    count from the end, anything outside [-len .. len-1] is an
    [IndexError]. *)
Definition norm_index (len i : Z) : result Z :=
  if (i <? - len) || (len <=? i) then Raise IndexError
  else Ok (if i <? 0 then i + len else i).

(** A slice bound is clipped to the axis, never an error. *)
Definition clip_bound (len v : Z) : Z :=
  if v <? 0 then Z.max (v + len) 0 else Z.min v len.

Definition in_slice (len : Z) (s : slice) (i : Z) : bool :=
  (clip_bound len (start s) <=? i) && (i <? clip_bound len (stop s)).

(** [dungeon.tiles[x, y] = value] *)
Definition set_tile (d : GameMap) (x y : Z) (value : Tile) : result GameMap :=
  i <- norm_index (width d) x ;;
  j <- norm_index (height d) y ;;
  Ok {| width := width d; height := height d;
        tiles := fun a b => if (a =? i) && (b =? j) then value else tiles d a b |}.

(** [dungeon.tiles[sx, sy] = value] *)
Definition set_slice (d : GameMap) (s : slice * slice) (value : Tile) : GameMap :=
  {| width := width d; height := height d;
     tiles := fun a b =>
       if in_slice (width d) (fst s) a && in_slice (height d) (snd s) b
       then value else tiles d a b |}.

Definition is_floor (d : GameMap) (c : Z * Z) : bool :=
  Tile_eqb (tiles d (fst c) (snd c)) floor.

(** ** Line rasterization

    Modelled from the spec: [tcod.los.bresenham] belongs to the console
    library, which is outside the sources.  It is the integer Bresenham
    walk: the start cell, then one cell per step along the major axis
    until the end cell is reached, so that both endpoints are always
    included. *)

Record bresenham_data : Type :=
  { stepx : Z; stepy : Z; e : Z; deltax : Z; deltay : Z;
    origx : Z; origy : Z; destx : Z; desty : Z }.

Definition line_init (xFrom yFrom xTo yTo : Z) : bresenham_data :=
  let dx := xTo - xFrom in
  let dy := yTo - yFrom in
  let sx := Z.sgn dx in
  let sy := Z.sgn dy in
  {| stepx := sx; stepy := sy;
     e := if sx * dx >? sy * dy then sx * dx else sy * dy;
     deltax := 2 * dx; deltay := 2 * dy;
     origx := xFrom; origy := yFrom; destx := xTo; desty := yTo |}.

Definition move (d : bresenham_data) (ox oy e' : Z) : bresenham_data :=
  {| stepx := stepx d; stepy := stepy d; e := e';
     deltax := deltax d; deltay := deltay d;
     origx := ox; origy := oy; destx := destx d; desty := desty d |}.

(** One step; [None] when the end of the line has been reached. *)
Definition line_step (d : bresenham_data) : option bresenham_data :=
  if stepx d * deltax d >? stepy d * deltay d then
    if origx d =? destx d then None
    else
      let ox := origx d + stepx d in
      let e' := e d - stepy d * deltay d in
      if e' <? 0
      then Some (move d ox (origy d + stepy d) (e' + stepx d * deltax d))
      else Some (move d ox (origy d) e')
  else
    if origy d =? desty d then None
    else
      let oy := origy d + stepy d in
      let e' := e d - stepx d * deltax d in
      if e' <? 0
      then Some (move d (origx d + stepx d) oy (e' + stepy d * deltay d))
      else Some (move d (origx d) oy e').

Fixpoint line_walk (fuel : nat) (d : bresenham_data) : list (Z * Z) :=
  match fuel with
  | O => []
  | S fuel' =>
      match line_step d with
      | None => []
      | Some d' => (origx d', origy d') :: line_walk fuel' d'
      end
  end.

(** The number of cells of a line is its Chebyshev length plus one, which
    bounds the number of steps. *)
Definition bresenham (p q : Z * Z) : list (Z * Z) :=
  let '(xa, ya) := p in
  let '(xb, yb) := q in
  let length := Z.max (Z.abs (xa - xb)) (Z.abs (ya - yb)) + 1 in
  if (xa =? xb) && (ya =? yb) then [p]
  else p :: line_walk (Z.to_nat length) (line_init xa ya xb yb).

(** ** tunnel_between *)

Definition tunnel_between (p q : Z * Z) (g : RNG) : list (Z * Z) * RNG :=
  let '(xa, ya) := p in
  let '(xb, yb) := q in
  let (heads, g') := random_lt_half g in
  let corner := if heads then (xb, ya) else (xa, yb) in
  (bresenham (xa, ya) corner ++ bresenham corner (xb, yb), g').

(** ** generate_dungeon *)

(** [player.x], [player.y] *)
Record Entity : Type := { ent_x : Z; ent_y : Z }.

(** The tile assignments of the generator, as written in the source: the
    slice assignment of a room and the single-cell assignment of a tunnel
    cell, with the index expressions they were given. *)
Inductive write : Type :=
| WriteSlice (s : slice * slice)
| WriteCell (c : Z * Z).

(** The variables of [generate_dungeon].  [trace] is a ghost field: the
    tile assignments in program order. *)
Record gen_state : Type :=
  { dungeon : GameMap;
    rooms : list RectangularRoom;
    player : Entity;
    rng : RNG;
    trace : list write }.

Definition carve_cell (acc : result (GameMap * list write)) (c : Z * Z)
  : result (GameMap * list write) :=
  '(d, tr) <- acc ;;
  d' <- set_tile d (fst c) (snd c) floor ;;
  Ok (d', tr ++ [WriteCell c]).

(** The body of the [for r in range(max_rooms)] loop. *)
Definition place_room (room_min_size room_max_size : Z) (s : gen_state)
  : result gen_state :=
  '(room_width, g1) <- randint room_min_size room_max_size (rng s) ;;
  '(room_height, g2) <- randint room_min_size room_max_size g1 ;;
  '(x, g3) <- randint 0 (width (dungeon s) - room_width - 1) g2 ;;
  '(y, g4) <- randint 0 (height (dungeon s) - room_height - 1) g3 ;;
  let room := new_room x y room_width room_height in
  if existsb (intersects room) (rooms s) then
    Ok {| dungeon := dungeon s; rooms := rooms s; player := player s;
          rng := g4; trace := trace s |}
  else
    let d1 := set_slice (dungeon s) (inner room) floor in
    let tr1 := trace s ++ [WriteSlice (inner room)] in
    match rooms s with
    | [] =>
        Ok {| dungeon := d1; rooms := rooms s ++ [room];
              player := {| ent_x := fst (center room); ent_y := snd (center room) |};
              rng := g4; trace := tr1 |}
    | r0 :: rest =>
        let (cells, g5) := tunnel_between (center (last rest r0)) (center room) g4 in
        '(d2, tr2) <- fold_left carve_cell cells (Ok (d1, tr1)) ;;
        Ok {| dungeon := d2; rooms := rooms s ++ [room]; player := player s;
              rng := g5; trace := tr2 |}
    end.

Fixpoint repeat_rooms (n : nat) (room_min_size room_max_size : Z) (s : gen_state)
  : result gen_state :=
  match n with
  | O => Ok s
  | S n' =>
      s' <- place_room room_min_size room_max_size s ;;
      repeat_rooms n' room_min_size room_max_size s'
  end.

Definition generate_dungeon
  (max_rooms room_min_size room_max_size map_width map_height : Z)
  (player : Entity) (g : RNG) : result gen_state :=
  d <- new_GameMap map_width map_height ;;
  repeat_rooms (Z.to_nat max_rooms) room_min_size room_max_size
    {| dungeon := d; rooms := []; player := player; rng := g; trace := [] |}.

End Procgen.

Module InputHandlers.

(** ** Key symbols and modifier flags

    [tcod.event.KeySym] and [tcod.event.Modifier] belong to the console
    library.  Their members are integers: the key codes and the modifier
    bit flags of the underlying input layer.  A key without a printable
    character has the code of its scancode with bit 30 set. *)

Module KeySym.
Definition of_scancode (n : Z) : Z := Z.lor (Z.shiftl 1 30) n.

Definition RETURN : Z := 13.
Definition ESCAPE : Z := 27.
Definition PERIOD : Z := 46.
Definition SLASH : Z := 47.
Definition a : Z := 97.
Definition b : Z := 98.
Definition d : Z := 100.
Definition g : Z := 103.
Definition h : Z := 104.
Definition i : Z := 105.
Definition j : Z := 106.
Definition k : Z := 107.
Definition l : Z := 108.
Definition n : Z := 110.
Definition u : Z := 117.
Definition v : Z := 118.
Definition y : Z := 121.
Definition z : Z := 122.
Definition HOME : Z := of_scancode 74.
Definition PAGEUP : Z := of_scancode 75.
Definition END : Z := of_scancode 77.
Definition PAGEDOWN : Z := of_scancode 78.
Definition RIGHT : Z := of_scancode 79.
Definition LEFT : Z := of_scancode 80.
Definition DOWN : Z := of_scancode 81.
Definition UP : Z := of_scancode 82.
Definition KP_ENTER : Z := of_scancode 88.
Definition KP_1 : Z := of_scancode 89.
Definition KP_2 : Z := of_scancode 90.
Definition KP_3 : Z := of_scancode 91.
Definition KP_4 : Z := of_scancode 92.
Definition KP_5 : Z := of_scancode 93.
Definition KP_6 : Z := of_scancode 94.
Definition KP_7 : Z := of_scancode 95.
Definition KP_8 : Z := of_scancode 96.
Definition KP_9 : Z := of_scancode 97.
Definition CLEAR : Z := of_scancode 156.
Definition LCTRL : Z := of_scancode 224.
Definition LSHIFT : Z := of_scancode 225.
Definition LALT : Z := of_scancode 226.
Definition RCTRL : Z := of_scancode 228.
Definition RSHIFT : Z := of_scancode 229.
Definition RALT : Z := of_scancode 230.
End KeySym.

Module Modifier.
Definition NONE : Z := 0.
Definition LSHIFT : Z := 1.
Definition RSHIFT : Z := 2.
Definition LCTRL : Z := 64.
Definition RCTRL : Z := 128.
Definition LALT : Z := 256.
Definition RALT : Z := 512.
Definition SHIFT : Z := Z.lor LSHIFT RSHIFT.
Definition CTRL : Z := Z.lor LCTRL RCTRL.
Definition ALT : Z := Z.lor LALT RALT.
End Modifier.

(** [tcod.event.KeyDown]: [event.sym] and [event.mod] *)
Record KeyDown : Type := { sym : Z; mod_ : Z }.

(** A dictionary with key-symbol keys, in source order. *)
Fixpoint lookup {V : Type} (key : Z) (dict : list (Z * V)) : option V :=
  match dict with
  | [] => None
  | (k, v) :: rest => if key =? k then Some v else lookup key rest
  end.

Definition member (key : Z) (keys : list Z) : bool :=
  existsb (Z.eqb key) keys.

Definition MOVE_KEYS : list (Z * (Z * Z)) :=
  [ (* Arrow keys *)
    (KeySym.UP, (0, -1));
    (KeySym.DOWN, (0, 1));
    (KeySym.LEFT, (-1, 0));
    (KeySym.RIGHT, (1, 0));
    (KeySym.HOME, (-1, -1));
    (KeySym.END, (-1, 1));
    (KeySym.PAGEUP, (1, -1));
    (KeySym.PAGEDOWN, (1, 1));
    (* Numpad keys *)
    (KeySym.KP_8, (0, -1));
    (KeySym.KP_2, (0, 1));
    (KeySym.KP_4, (-1, 0));
    (KeySym.KP_6, (1, 0));
    (KeySym.KP_7, (-1, -1));
    (KeySym.KP_1, (-1, 1));
    (KeySym.KP_9, (1, -1));
    (KeySym.KP_3, (1, 1));
    (* Vi keys *)
    (KeySym.k, (0, -1));
    (KeySym.j, (0, 1));
    (KeySym.h, (-1, 0));
    (KeySym.l, (1, 0));
    (KeySym.y, (-1, -1));
    (KeySym.b, (-1, 1));
    (KeySym.u, (1, -1));
    (KeySym.n, (1, 1)) ].

Definition WAIT_KEYS : list Z :=
  [ KeySym.PERIOD; KeySym.KP_5; KeySym.CLEAR ].

Definition CONFIRM_KEYS : list Z :=
  [ KeySym.RETURN; KeySym.KP_ENTER ].

Definition CURSOR_Y_KEYS : list (Z * Z) :=
  [ (KeySym.UP, -1);
    (KeySym.DOWN, 1);
    (KeySym.PAGEUP, -10);
    (KeySym.PAGEDOWN, 10) ].

(** ** The engine and its collaborators *)

(** [color.impossible], [color.invalid] *)
Inductive Color : Type := impossible | invalid.

(** The handler classes that are instantiated.  [HistoryViewer] carries
    its two attributes. *)
Inductive Handler : Type :=
| MainGameEventHandler
| InventoryActivateHandler
| InventoryDropHandler
| LookHandler
| HistoryViewer (log_length cursor : Z)
| GameOverEventHandler.

(** The entity and action modules are outside the sources: items and
    actions are opaque, actions are built by the constructors the
    handlers call (the acting entity is always the player). *)
Class World : Type :=
  { Item : Type;
    Action : Type;
    Hidden : Type;   (* engine state the handlers never touch *)
    BumpAction : Z -> Z -> Action;
    WaitAction : Action;
    PickupAction : Action;
    DropItem : Item -> Action }.

Section EngineState.
Context {W : World}.

(** [engine.player]: position and [inventory.items] *)
Record Actor : Type :=
  { x : Z; y : Z; items : list Item }.

(** Modelled from the spec: [Engine] ([engine.py] is not among the
    sources): the session context shared by the handlers, with the single
    active handler, the ordered message log, the cursor location, the
    player and the map dimensions. *)
Record Engine : Type :=
  { event_handler : Handler;
    messages : list (string * Color);
    mouse_location : Z * Z;
    player : Actor;
    map_width : Z;
    map_height : Z;
    hidden : Hidden }.

Definition set_event_handler (h : Handler) (en : Engine) : Engine :=
  {| event_handler := h; messages := messages en;
     mouse_location := mouse_location en; player := player en;
     map_width := map_width en; map_height := map_height en;
     hidden := hidden en |}.

Definition set_mouse_location (c : Z * Z) (en : Engine) : Engine :=
  {| event_handler := event_handler en; messages := messages en;
     mouse_location := c; player := player en;
     map_width := map_width en; map_height := map_height en;
     hidden := hidden en |}.

(** Modelled from the spec: [message_log.add_message(text, fg)] inserts a
    text and colour pair at the end of the ordered log. *)
Definition add_message (text : string) (fg : Color) (en : Engine) : Engine :=
  {| event_handler := event_handler en;
     messages := messages en ++ [(text, fg)];
     mouse_location := mouse_location en; player := player en;
     map_width := map_width en; map_height := map_height en;
     hidden := hidden en |}.

(** [action.perform()] either completes or raises
    [exceptions.Impossible] with a message; both leave an engine state. *)
Inductive perform_result : Type :=
| Performed (en : Engine)
| Impossible (msg : string) (en : Engine).

End EngineState.

(** What the handlers call and the sources do not define. *)
Class Collaborators (W : World) : Type :=
  { perform : Action -> Engine -> perform_result;
    handle_enemy_turns : Engine -> Engine;
    update_fov : Engine -> Engine;
    get_action : Item -> Engine -> option Action * Engine }.

Section Handlers.
Context {W : World} {C : Collaborators W}.

(** *** EventHandler *)

Definition EventHandler_handle_action (action : option Action) (en : Engine)
  : bool * Engine :=
  match action with
  | None => (false, en)
  | Some act =>
      match perform act en with
      | Impossible msg en1 => (false, add_message msg impossible en1)
      | Performed en1 => (true, update_fov (handle_enemy_turns en1))
      end
  end.

(** *** AskUserEventHandler *)

Definition AskUser_handle_action (action : option Action) (en : Engine)
  : bool * Engine :=
  let (advanced, en1) := EventHandler_handle_action action en in
  if advanced then (true, set_event_handler MainGameEventHandler en1)
  else (false, en1).

Definition on_exit (en : Engine) : option Action * Engine :=
  (None, set_event_handler MainGameEventHandler en).

Definition AskUser_ev_keydown (event : KeyDown) (en : Engine)
  : option Action * Engine :=
  if member (sym event)
       [ KeySym.LSHIFT; KeySym.RSHIFT; KeySym.LCTRL; KeySym.RCTRL;
         KeySym.LALT; KeySym.RALT ]
  then (None, en)
  else on_exit en.

(** *** InventoryEventHandler and its two subclasses *)

Inductive InventoryMode : Type := Activate | Drop.

Definition on_item_selected (mode : InventoryMode) (item : Item) (en : Engine)
  : option Action * Engine :=
  match mode with
  | Activate => get_action item en
  | Drop => (Some (DropItem item), en)
  end.

Definition Inventory_ev_keydown (mode : InventoryMode) (event : KeyDown)
  (en : Engine) : option Action * Engine :=
  let key := sym event in
  let index := key - KeySym.a in
  if (0 <=? index) && (index <=? 26) then
    match nth_error (items (player en)) (Z.to_nat index) with
    | None => (None, add_message "Invalid entry"%string invalid en)
    | Some selected_item => on_item_selected mode selected_item en
    end
  else AskUser_ev_keydown event en.

(** *** SelectIndexHandler and LookHandler *)

Definition new_SelectIndexHandler (en : Engine) : Engine :=
  set_mouse_location (x (player en), y (player en)) en.

Definition Look_on_index_selected (c : Z * Z) (en : Engine)
  : option Action * Engine :=
  (None, set_event_handler MainGameEventHandler en).

Definition speed_modifier (event : KeyDown) : Z :=
  let modifier := 1 in
  let modifier :=
    if negb (Z.land (mod_ event) (Z.lor KeySym.LSHIFT KeySym.RSHIFT) =? 0)
    then modifier * 5 else modifier in
  let modifier :=
    if negb (Z.land (mod_ event) (Z.lor KeySym.LCTRL KeySym.RCTRL) =? 0)
    then modifier * 10 else modifier in
  let modifier :=
    if negb (Z.land (mod_ event) (Z.lor KeySym.LALT KeySym.RALT) =? 0)
    then modifier * 20 else modifier in
  modifier.

Definition SelectIndex_ev_keydown
  (on_index_selected : Z * Z -> Engine -> option Action * Engine)
  (event : KeyDown) (en : Engine) : option Action * Engine :=
  let key := sym event in
  match lookup key MOVE_KEYS with
  | Some (dx, dy) =>
      let modifier := speed_modifier event in
      let '(cx, cy) := mouse_location en in
      let cx := cx + dx * modifier in
      let cy := cy + dy * modifier in
      let cx := Z.max 0 (Z.min cx (map_width en - 1)) in
      let cy := Z.max 0 (Z.min cy (map_height en - 1)) in
      (None, set_mouse_location (cx, cy) en)
  | None =>
      if member key CONFIRM_KEYS
      then on_index_selected (mouse_location en) en
      else AskUser_ev_keydown event en
  end.

(** *** HistoryViewer *)

Definition new_HistoryViewer (en : Engine) : Handler :=
  let log_length := Z.of_nat (List.length (messages en)) in
  HistoryViewer log_length (log_length - 1).

(** The new value of [self.cursor], or [None] for a key that leaves the
    viewer. *)
Definition history_cursor (log_length cursor : Z) (key : Z) : option Z :=
  match lookup key CURSOR_Y_KEYS with
  | Some adjust =>
      if (adjust <? 0) && (cursor =? 0) then Some (log_length - 1)
      else if (adjust >? 0) && (cursor =? log_length - 1) then Some 0
      else Some (Z.max 0 (Z.min (cursor + adjust) (log_length - 1)))
  | None =>
      if key =? KeySym.HOME then Some 0
      else if key =? KeySym.END then Some (log_length - 1)
      else None
  end.

Definition HistoryViewer_ev_keydown (log_length cursor : Z) (event : KeyDown)
  (en : Engine) : option Action * Engine :=
  match history_cursor log_length cursor (sym event) with
  | Some cursor' => (None, set_event_handler (HistoryViewer log_length cursor') en)
  | None => (None, set_event_handler MainGameEventHandler en)
  end.

(** *** MainGameEventHandler and GameOverEventHandler *)

Definition MainGame_ev_keydown (event : KeyDown) (en : Engine)
  : result (option Action * Engine) :=
  let key := sym event in
  match lookup key MOVE_KEYS with
  | Some (dx, dy) => Ok (Some (BumpAction dx dy), en)
  | None =>
      if member key WAIT_KEYS then Ok (Some WaitAction, en)
      else if key =? KeySym.ESCAPE then Raise SystemExit
      else if key =? KeySym.v
      then Ok (None, set_event_handler (new_HistoryViewer en) en)
      else if key =? KeySym.g then Ok (Some PickupAction, en)
      else if key =? KeySym.i
      then Ok (None, set_event_handler InventoryActivateHandler en)
      else if key =? KeySym.d
      then Ok (None, set_event_handler InventoryDropHandler en)
      else if key =? KeySym.SLASH
      then Ok (None, set_event_handler LookHandler (new_SelectIndexHandler en))
      else Ok (None, en)
  end.

Definition GameOver_ev_keydown (event : KeyDown) (en : Engine)
  : result (option Action * Engine) :=
  if sym event =? KeySym.ESCAPE then Raise SystemExit else Ok (None, en).

(** *** Dispatch on the class of the handler

    [self] is the active handler object, so an assignment to
    [self.cursor] is seen through [engine.event_handler]. *)

Definition ev_keydown (self : Handler) (event : KeyDown) (en : Engine)
  : result (option Action * Engine) :=
  match self with
  | MainGameEventHandler => MainGame_ev_keydown event en
  | InventoryActivateHandler => Ok (Inventory_ev_keydown Activate event en)
  | InventoryDropHandler => Ok (Inventory_ev_keydown Drop event en)
  | LookHandler => Ok (SelectIndex_ev_keydown Look_on_index_selected event en)
  | HistoryViewer log_length cursor =>
      Ok (HistoryViewer_ev_keydown log_length cursor event en)
  | GameOverEventHandler => GameOver_ev_keydown event en
  end.

Definition handle_action (self : Handler) (action : option Action) (en : Engine)
  : bool * Engine :=
  match self with
  | InventoryActivateHandler | InventoryDropHandler | LookHandler =>
      AskUser_handle_action action en
  | MainGameEventHandler | HistoryViewer _ _ | GameOverEventHandler =>
      EventHandler_handle_action action en
  end.

(** [handle_events] for a key press: [self.handle_action(self.dispatch(event))] *)
Definition handle_events (self : Handler) (event : KeyDown) (en : Engine)
  : result (bool * Engine) :=
  '(action, en1) <- ev_keydown self event en ;;
  Ok (handle_action self action en1).

End Handlers.

End InputHandlers.

(** * Vocabulary of the statements about the generator *)

Module ProcgenSpec.
Import Procgen.

(** The invariant of a walk along one axis: [s] is the unit step, [k]
    the number of cells still to visit. *)
Definition along_x (d : bresenham_data) (s : Z) (k : nat) : Prop :=
  stepy d = 0 /\ stepx d = s /\ (s = 1 \/ s = -1) /\
  0 < s * deltax d /\ destx d = origx d + s * Z.of_nat k.

Definition along_y (d : bresenham_data) (s : Z) (k : nat) : Prop :=
  stepx d = 0 /\ stepy d = s /\ (s = 1 \/ s = -1) /\
  0 < s * deltay d /\ desty d = origy d + s * Z.of_nat k.

(** The cells at distance [1..k] from [(ox, oy)] in direction [(sx, sy)]. *)
Fixpoint run (ox oy sx sy : Z) (k : nat) : list (Z * Z) :=
  match k with
  | O => []
  | S k' => (ox + sx, oy + sy) :: run (ox + sx) (oy + sy) sx sy k'
  end.

(** The random source after one draw. *)
Definition next_rng (g : RNG) : RNG := {| draws := draws g; pos := S (pos g) |}.

(** Orthogonally adjacent cells. *)
Definition adjacent (a b : Z * Z) : Prop :=
  Z.abs (fst a - fst b) + Z.abs (snd a - snd b) = 1.

(** [connected d a b]: [b] is reached from [a] by steps between
    orthogonally adjacent floor cells of [d] (no step at all when
    [a = b]). *)
Inductive connected (d : GameMap) (a : Z * Z) : Z * Z -> Prop :=
| connected_here : connected d a a
| connected_step (b c : Z * Z) :
    connected d a b -> adjacent b c ->
    is_floor d b = true -> is_floor d c = true ->
    connected d a c.

(** The closed rectangle [x1..x2] x [y1..y2] of a room. *)
Definition in_rectangle (r : RectangularRoom) (c : Z * Z) : Prop :=
  x1 r <= fst c <= x2 r /\ y1 r <= snd c <= y2 r.

(** A room that lies inside a [w] x [h] map. *)
Definition room_in_map (w h : Z) (r : RectangularRoom) : Prop :=
  0 <= x1 r /\ x1 r <= x2 r /\ x2 r <= w - 1 /\
  0 <= y1 r /\ y1 r <= y2 r /\ y2 r <= h - 1.

(** The carved interior of a room inside the map. *)
Definition in_interior (r : RectangularRoom) (c : Z * Z) : Prop :=
  x1 r + 1 <= fst c <= x2 r - 1 /\ y1 r + 1 <= snd c <= y2 r - 1.

(** The documented precondition on the size parameters. *)
Definition size_precondition (room_min_size room_max_size map_width map_height : Z)
  : Prop :=
  1 <= room_min_size /\ room_min_size <= room_max_size /\
  room_max_size < map_width /\ room_max_size < map_height.

(** A tile assignment whose index expressions lie inside the array: a
    cell of [0..w-1] x [0..h-1], or slices with bounds in [0..w] and
    [0..h]. *)
Definition write_in_bounds (w h : Z) (wr : write) : Prop :=
  match wr with
  | WriteCell c => 0 <= fst c <= w - 1 /\ 0 <= snd c <= h - 1
  | WriteSlice (sx, sy) =>
      0 <= start sx /\ stop sx <= w /\ 0 <= start sy /\ stop sy <= h
  end.

(** No two rooms of the list overlap: the closed-interval test fails on
    them and no cell lies in both closed rectangles. *)
Definition non_overlapping (l : list RectangularRoom) : Prop :=
  forall (i j : nat) (a b : RectangularRoom),
    i <> j -> nth_error l i = Some a -> nth_error l j = Some b ->
    intersects a b = false /\
    forall c, ~ (in_rectangle a c /\ in_rectangle b c).

(** The same for the pairs taken in list order. *)
Definition ordered_apart (l : list RectangularRoom) : Prop :=
  forall (i j : nat) (a b : RectangularRoom),
    (i < j)%nat -> nth_error l i = Some a -> nth_error l j = Some b ->
    intersects a b = false.

(** A generator state over a [w] x [h] map whose rooms lie inside the
    map and whose tile assignments were all inside the array. *)
Definition well_placed (w h : Z) (s : gen_state) : Prop :=
  width (dungeon s) = w /\ height (dungeon s) = h /\
  Forall (room_in_map w h) (rooms s) /\
  Forall (write_in_bounds w h) (trace s).

(** Every floor cell and every room centre is connected to the centre
    of the first room; no floor at all before the first room. *)
Definition all_connected (s : gen_state) : Prop :=
  match rooms s with
  | [] => forall c, is_floor (dungeon s) c = false
  | r1 :: _ =>
      (forall c, is_floor (dungeon s) c = true ->
                 connected (dungeon s) (center r1) c) /\
      (forall r, In r (rooms s) -> connected (dungeon s) (center r1) (center r))
  end.

(** The room of the first attempt, from the first four draws. *)
Definition first_room (lo hi w h : Z) (g : RNG) : RectangularRoom :=
  let rw := lo + draws g (pos g) mod (hi - lo + 1) in
  let rh := lo + draws g (S (pos g)) mod (hi - lo + 1) in
  let x := 0 + draws g (S (S (pos g))) mod (w - rw - 1 - 0 + 1) in
  let y := 0 + draws g (S (S (S (pos g)))) mod (h - rh - 1 - 0 + 1) in
  new_room x y rw rh.

(** [player.x, player.y = room.center] *)
Definition at_center (r : RectangularRoom) : Entity :=
  {| ent_x := fst (center r); ent_y := snd (center r) |}.

(** The first room is [r1], the player stands at its centre and its
    interior is floor. *)
Definition first_room_kept (r1 : RectangularRoom) (s : gen_state) : Prop :=
  (exists rest, rooms s = r1 :: rest) /\
  player s = at_center r1 /\
  forall c, in_interior r1 c -> is_floor (dungeon s) c = true.

(** The cells of the L-shaped tunnel from [p] to [q], by the corner
    chosen. *)
Definition on_tunnel (heads : bool) (p q c : Z * Z) : Prop :=
  if heads then
    (snd c = snd p /\ Z.min (fst p) (fst q) <= fst c <= Z.max (fst p) (fst q))
    \/ (fst c = fst q /\ Z.min (snd p) (snd q) <= snd c <= Z.max (snd p) (snd q))
  else
    (fst c = fst p /\ Z.min (snd p) (snd q) <= snd c <= Z.max (snd p) (snd q))
    \/ (snd c = snd q /\ Z.min (fst p) (fst q) <= fst c <= Z.max (fst p) (fst q)).

(** ** A sample run

    Four attempts on a 20 x 20 map with sizes 3..5: the third draws the
    first room again and is rejected, the other three are accepted. *)

Definition sample_draws : list Z :=
  [ 0; 0; 3; 4;        (* 3 x 3 at (3, 4) *)
    1; 2; 12; 11; 1;   (* 4 x 5 at (12, 11), then the tunnel coin *)
    0; 0; 3; 4;        (* 3 x 3 at (3, 4) again *)
    2; 3; 0; 0; 0 ].   (* 5 x 3 at (0, 0), then the tunnel coin *)

Definition sample_rng : RNG :=
  {| draws := fun n => nth n sample_draws 0; pos := 0 |}.

Definition sample_player : Entity := {| ent_x := 0; ent_y := 0 |}.

Definition sample_rooms : list RectangularRoom :=
  [ new_room 3 4 3 3; new_room 12 11 4 5; new_room 0 0 5 3 ].

(** The state the sample run ends in. *)
Definition sample_state : gen_state :=
  Eval vm_compute in
    match generate_dungeon 4 3 5 20 20 sample_player sample_rng with
    | Ok s => s
    | Raise _ =>
        {| dungeon := {| width := 0; height := 0; tiles := fun _ _ => wall |};
           rooms := []; player := sample_player; rng := sample_rng; trace := [] |}
    end.

End ProcgenSpec.

(** * Vocabulary of the statements about the handlers *)

Module InputSpec.
Import InputHandlers.

Section Driver.
Context {W : World} {C : Collaborators W}.

(** The handler object of an inventory mode. *)
Definition inventory_handler (mode : InventoryMode) : Handler :=
  match mode with
  | Activate => InventoryActivateHandler
  | Drop => InventoryDropHandler
  end.

(** The event loop on key presses: each event goes to the handler that
    is active when it arrives. *)
Fixpoint press_keys (events : list KeyDown) (en : Engine) : result Engine :=
  match events with
  | [] => Ok en
  | event :: rest =>
      '(_, en1) <- handle_events (event_handler en) event en ;;
      press_keys rest en1
  end.

End Driver.

(** A modifier is held when one of its flags is set in [event.mod]. *)
Definition held (flags : Z) (event : KeyDown) : bool :=
  negb (Z.land (mod_ event) flags =? 0).

(** The keys that move the cursor of the history viewer. *)
Definition navigation_keys : list Z :=
  [ KeySym.UP; KeySym.DOWN; KeySym.PAGEUP; KeySym.PAGEDOWN;
    KeySym.HOME; KeySym.END ].

Definition navigation (event : KeyDown) : Prop := In (sym event) navigation_keys.

(** ** A small world to run the handlers in *)

Inductive SampleAction : Type :=
| Bump (dx dy : Z)
| Wait
| Pickup
| DropIt (item : string)
| UseIt (item : string).

Definition sample_world : World :=
  {| Item := string; Action := SampleAction; Hidden := unit;
     BumpAction := Bump; WaitAction := Wait; PickupAction := Pickup;
     DropItem := DropIt |}.

(** Every move is blocked by a wall; the enemies report their turn. *)
Definition sample_collaborators : Collaborators sample_world :=
  {| perform := fun (act : @Action sample_world) (en : @Engine sample_world) =>
       match act with
       | Bump _ _ => Impossible "That way is blocked."%string en
       | _ => Performed en
       end;
     handle_enemy_turns := fun en => add_message "The Orc attacks."%string invalid en;
     update_fov := fun en => en;
     get_action := fun item en => (Some (UseIt item), en) |}.

Definition sample_engine (h : Handler) (log : list (string * Color))
  (inventory : list string) : @Engine sample_world :=
  @Build_Engine sample_world h log (10, 10)
    (@Build_Actor sample_world 10 10 inventory) 80 50 tt.

Definition welcome : list (string * Color) :=
  [ ("Hello and welcome, adventurer!"%string, invalid);
    ("You see a potion."%string, invalid);
    ("You pick up the potion."%string, invalid) ].

End InputSpec.

(** * Further vocabulary for the generator *)

Module ProcgenPaths.
Import Procgen ProcgenSpec.

(** A list of cells in which each cell is the next one or orthogonally
    adjacent to it. *)
Fixpoint linked (l : list (Z * Z)) : Prop :=
  match l with
  | a :: (b :: _) as rest => (a = b \/ adjacent a b) /\ linked rest
  | _ => True
  end.

(** A room whose bounds are in order. *)
Definition ordered_bounds (r : RectangularRoom) : Prop :=
  x1 r <= x2 r /\ y1 r <= y2 r.

(** A room inside a [w] x [h] map with sides of at least 2. *)
Definition roomy (w h : Z) (r : RectangularRoom) : Prop :=
  0 <= x1 r /\ x1 r + 2 <= x2 r /\ x2 r <= w - 1 /\
  0 <= y1 r /\ y1 r + 2 <= y2 r /\ y2 r <= h - 1.

(** A room of the requested size: sides within [lo..hi], rectangle
    within [0..w-1] x [0..h-1]. *)
Definition sized (lo hi w h : Z) (r : RectangularRoom) : Prop :=
  lo <= x2 r - x1 r <= hi /\ lo <= y2 r - y1 r <= hi /\
  0 <= x1 r /\ x2 r <= w - 1 /\ 0 <= y1 r /\ y2 r <= h - 1.

(** A cell that is not on the outer ring of a [w] x [h] map. *)
Definition off_border (w h : Z) (c : Z * Z) : Prop :=
  1 <= fst c <= w - 2 /\ 1 <= snd c <= h - 2.

(** A well-placed state with roomy rooms whose floor keeps off the
    border. *)
Definition enclosed (w h : Z) (s : gen_state) : Prop :=
  well_placed w h s /\
  Forall (roomy w h) (rooms s) /\
  forall c, is_floor (dungeon s) c = true -> off_border w h c.

End ProcgenPaths.

(** * The other events and the inventory menu *)

Module InputEvents.
Import InputHandlers InputSpec.

(** [tcod.event.MouseMotion]: [event.tile] *)
Record MouseMotion : Type := { motion_tile : Z * Z }.

(** [tcod.event.MouseButtonDown]: [event.tile] and [event.button] *)
Record MouseButtonDown : Type := { tile : Z * Z; button : Z }.

(** The input event vocabulary. *)
Inductive Event : Type :=
| KeyDownEvent (event : KeyDown)
| MouseMotionEvent (event : MouseMotion)
| MouseButtonDownEvent (event : MouseButtonDown)
| QuitEvent.

(** [TITLE] of the two inventory handlers. *)
Definition TITLE (mode : InventoryMode) : string :=
  match mode with
  | Activate => "Select an item to use"
  | Drop => "Select an item to drop"
  end.

(** The arguments of [console.draw_frame]. *)
Record Frame : Type :=
  { frame_x : Z; frame_y : Z; frame_width : Z; frame_height : Z }.

(** The handlers that derive from [AskUserEventHandler]. *)
Definition ask_user (self : Handler) : bool :=
  match self with
  | InventoryActivateHandler | InventoryDropHandler | LookHandler => true
  | MainGameEventHandler | HistoryViewer _ _ | GameOverEventHandler => false
  end.

Section Events.
Context {W : World} {C : Collaborators W}.

(** Modelled from the spec: [game_map.in_bounds(x, y)] ([game_map.py] is
    not among the sources): the tile is within the map bounds. *)
Definition in_bounds (en : Engine) (c : Z * Z) : bool :=
  (0 <=? fst c) && (fst c <? map_width en)
  && (0 <=? snd c) && (snd c <? map_height en).

(** *** EventHandler *)

Definition ev_mousemotion (event : MouseMotion) (en : Engine)
  : option Action * Engine :=
  if in_bounds en (motion_tile event)
  then (None, set_mouse_location (motion_tile event) en)
  else (None, en).

Definition ev_quit : result (option Action * Engine) := Raise SystemExit.

(** *** AskUserEventHandler *)

Definition AskUser_ev_mousebuttondown (event : MouseButtonDown) (en : Engine)
  : option Action * Engine :=
  on_exit en.

(** *** SelectIndexHandler *)

Definition SelectIndex_ev_mousebuttondown
  (on_index_selected : Z * Z -> Engine -> option Action * Engine)
  (event : MouseButtonDown) (en : Engine) : option Action * Engine :=
  if in_bounds en (tile event) then
    if button event =? 1 then on_index_selected (tile event) en
    else AskUser_ev_mousebuttondown event en
  else AskUser_ev_mousebuttondown event en.

(** *** Dispatch of any event

    An event kind for which the class of [self] has no method gives no
    action. *)
Definition ev_mousebuttondown (self : Handler) (event : MouseButtonDown)
  (en : Engine) : option Action * Engine :=
  match self with
  | InventoryActivateHandler | InventoryDropHandler =>
      AskUser_ev_mousebuttondown event en
  | LookHandler => SelectIndex_ev_mousebuttondown Look_on_index_selected event en
  | MainGameEventHandler | HistoryViewer _ _ | GameOverEventHandler => (None, en)
  end.

Definition dispatch (self : Handler) (event : Event) (en : Engine)
  : result (option Action * Engine) :=
  match event with
  | KeyDownEvent e => ev_keydown self e en
  | MouseMotionEvent e => Ok (ev_mousemotion e en)
  | MouseButtonDownEvent e => Ok (ev_mousebuttondown self e en)
  | QuitEvent => ev_quit
  end.

(** [handle_events]: [self.handle_action(self.dispatch(event))] *)
Definition handle_event (self : Handler) (event : Event) (en : Engine)
  : result (bool * Engine) :=
  '(action, en1) <- dispatch self event en ;;
  Ok (handle_action self action en1).

(** The event loop: each event goes to the handler active when it
    arrives. *)
Fixpoint handle_all (events : list Event) (en : Engine) : result Engine :=
  match events with
  | [] => Ok en
  | event :: rest =>
      '(_, en1) <- handle_event (event_handler en) event en ;;
      handle_all rest en1
  end.

(** *** InventoryEventHandler.on_render

    The frame that is drawn and the lines that are printed, each with its
    console position. *)

Inductive Line : Type :=
| ItemLine (item_key : Z) (item : Item)   (* "(key) name", key a code point *)
| EmptyLine.                               (* "(Empty)" *)

Definition inventory_frame (mode : InventoryMode) (en : Engine) : Frame :=
  let number_of_items_in_inventory := Z.of_nat (List.length (items (player en))) in
  let height := number_of_items_in_inventory + 2 in
  let height := if height <=? 3 then 3 else height in
  let fx := if x (player en) <=? 30 then 40 else 0 in
  let fy := 0 in
  let width := Z.of_nat (String.length (TITLE mode)) + 4 in
  {| frame_x := fx; frame_y := fy; frame_width := width; frame_height := height |}.

(** [ord("a")] *)
Definition ord_a : Z := 97.

(** [for i, item in enumerate(items)], from index [i] on; the key of a
    line is [chr(ord("a") + i)]. *)
Fixpoint item_lines (fx fy i : Z) (l : list Item) : list (Z * Z * Line) :=
  match l with
  | [] => []
  | item :: rest =>
      (fx + 1, fy + i + 1, ItemLine (ord_a + i) item)
      :: item_lines fx fy (i + 1) rest
  end.

Definition inventory_lines (mode : InventoryMode) (en : Engine)
  : list (Z * Z * Line) :=
  let fr := inventory_frame mode en in
  if 0 <? Z.of_nat (List.length (items (player en)))
  then item_lines (frame_x fr) (frame_y fr) 0 (items (player en))
  else [(frame_x fr + 1, frame_y fr + 1, EmptyLine)].

End Events.

(** The events that move the cursor of a tile selection. *)
Definition cursor_event (event : Event) : Prop :=
  match event with
  | KeyDownEvent e => lookup (sym e) MOVE_KEYS <> None
  | MouseMotionEvent _ => True
  | _ => False
  end.

(** A direction of one step. *)
Definition unit_step (d : Z * Z) : Prop :=
  -1 <= fst d <= 1 /\ -1 <= snd d <= 1 /\ d <> (0, 0).

(** The six keys that are modifiers only. *)
Definition modifier_keys : list Z :=
  [ KeySym.LSHIFT; KeySym.RSHIFT; KeySym.LCTRL; KeySym.RCTRL;
    KeySym.LALT; KeySym.RALT ].

End InputEvents.

(** * Properties of the dungeon generator *)

Module ProcgenProofs.
Import Procgen ProcgenSpec.

(** ** The random source *)

Lemma randint_ok (a b : Z) (g : RNG) :
  a <= b ->
  randint a b g
  = Ok (a + draws g (pos g) mod (b - a + 1), {| draws := draws g; pos := S (pos g) |}).
Proof.
  intros Hab. unfold randint, rng_next.
  destruct (Z.ltb_spec b a); [lia | reflexivity].
Qed.

Lemma randint_inv (a b v : Z) (g g' : RNG) :
  randint a b g = Ok (v, g') ->
  a <= v <= b /\ g' = {| draws := draws g; pos := S (pos g) |}.
Proof.
  unfold randint, rng_next.
  destruct (Z.ltb_spec b a) as [|Hab]; [discriminate|].
  intros H. injection H as <- <-.
  split; [|reflexivity].
  pose proof (Z.mod_pos_bound (draws g (pos g)) (b - a + 1)). lia.
Qed.

(** Every value of the range is drawn by some raw draw. *)
Lemma randint_onto (a b v : Z) (g : RNG) :
  a <= v <= b ->
  draws g (pos g) = v - a ->
  exists g', randint a b g = Ok (v, g').
Proof.
  intros Hv Hd. rewrite randint_ok by lia. rewrite Hd.
  rewrite Z.mod_small by lia. eexists. f_equal. f_equal. lia.
Qed.

(** ** Straight lines *)

Lemma line_step_along_x d s k :
  along_x d s (S k) ->
  exists d', line_step d = Some d' /\ along_x d' s k /\
             origx d' = origx d + s /\ origy d' = origy d.
Proof.
  intros (Hsy & Hsx & Hs & Hpos & Hdest). unfold line_step.
  rewrite Hsy, Hsx. replace (0 * deltay d) with 0 by lia.
  destruct (Z.gtb_spec (s * deltax d) 0) as [_|]; [|lia].
  destruct (Z.eqb_spec (origx d) (destx d)) as [Heq|_]; [lia|].
  destruct (e d - 0 <? 0); eexists; (split; [reflexivity|]);
    unfold along_x; cbn; repeat split; try assumption; lia.
Qed.

Lemma line_step_end_x d s : along_x d s 0 -> line_step d = None.
Proof.
  intros (Hsy & Hsx & Hs & Hpos & Hdest). unfold line_step.
  rewrite Hsy, Hsx. replace (0 * deltay d) with 0 by lia.
  destruct (Z.gtb_spec (s * deltax d) 0) as [_|]; [|lia].
  destruct (Z.eqb_spec (origx d) (destx d)) as [_|Hne]; [reflexivity|lia].
Qed.

Lemma line_step_along_y d s k :
  along_y d s (S k) ->
  exists d', line_step d = Some d' /\ along_y d' s k /\
             origx d' = origx d /\ origy d' = origy d + s.
Proof.
  intros (Hsx & Hsy & Hs & Hpos & Hdest). unfold line_step.
  rewrite Hsy, Hsx. replace (0 * deltax d) with 0 by lia.
  destruct (Z.gtb_spec 0 (s * deltay d)) as [|_]; [lia|].
  destruct (Z.eqb_spec (origy d) (desty d)) as [Heq|_]; [lia|].
  destruct (e d - 0 <? 0); eexists; (split; [reflexivity|]);
    unfold along_y; cbn; repeat split; try assumption; lia.
Qed.

Lemma line_step_end_y d s : along_y d s 0 -> line_step d = None.
Proof.
  intros (Hsx & Hsy & Hs & Hpos & Hdest). unfold line_step.
  rewrite Hsy, Hsx. replace (0 * deltax d) with 0 by lia.
  destruct (Z.gtb_spec 0 (s * deltay d)) as [|_]; [lia|].
  destruct (Z.eqb_spec (origy d) (desty d)) as [_|Hne]; [reflexivity|lia].
Qed.

Lemma line_walk_along_x k : forall fuel d s,
  (k <= fuel)%nat -> along_x d s k ->
  line_walk fuel d = run (origx d) (origy d) s 0 k.
Proof.
  induction k as [|k IH]; intros fuel d s Hfuel Hd.
  - destruct fuel; [reflexivity|]. cbn. now rewrite (line_step_end_x d s).
  - destruct fuel as [|fuel]; [lia|].
    destruct (line_step_along_x d s k Hd) as (d' & Hstep & Hd' & Hx & Hy).
    cbn. rewrite Hstep. rewrite (IH fuel d' s) by (assumption || lia).
    rewrite Hx, Hy. now replace (origy d + 0) with (origy d) by lia.
Qed.

Lemma line_walk_along_y k : forall fuel d s,
  (k <= fuel)%nat -> along_y d s k ->
  line_walk fuel d = run (origx d) (origy d) 0 s k.
Proof.
  induction k as [|k IH]; intros fuel d s Hfuel Hd.
  - destruct fuel; [reflexivity|]. cbn. now rewrite (line_step_end_y d s).
  - destruct fuel as [|fuel]; [lia|].
    destruct (line_step_along_y d s k Hd) as (d' & Hstep & Hd' & Hx & Hy).
    cbn. rewrite Hstep. rewrite (IH fuel d' s) by (assumption || lia).
    rewrite Hx, Hy. now replace (origx d + 0) with (origx d) by lia.
Qed.

Lemma in_run ox oy sx sy k c :
  In c (run ox oy sx sy k) <->
  exists i, 1 <= i <= Z.of_nat k /\ c = (ox + i * sx, oy + i * sy).
Proof.
  revert ox oy. induction k as [|k IH]; intros ox oy; cbn [run In].
  - split; [contradiction|]. intros (i & Hi & _). lia.
  - rewrite IH. split.
    + intros [<- | (i & Hi & ->)].
      * exists 1. split; [lia|]. f_equal; lia.
      * exists (i + 1). split; [lia|]. f_equal; lia.
    + intros (i & Hi & ->).
      destruct (Z.eq_dec i 1) as [->|Hne].
      * left. f_equal; lia.
      * right. exists (i - 1). split; [lia|]. f_equal; lia.
Qed.

(** A horizontal line is the closed run between its two ends. *)
Lemma bresenham_horizontal (xa xb y0 : Z) (c : Z * Z) :
  In c (bresenham (xa, y0) (xb, y0)) <->
  snd c = y0 /\ Z.min xa xb <= fst c <= Z.max xa xb.
Proof.
  unfold bresenham. rewrite Z.eqb_refl, andb_true_r.
  destruct (Z.eqb_spec xa xb) as [->|Hne].
  - cbn [In]. destruct c as [cx cy]; cbn [fst snd]. split.
    + intros [H|[]]. injection H as <- <-. lia.
    + intros [-> H]. left. f_equal. lia.
  - set (k := Z.to_nat (Z.abs (xb - xa))).
    rewrite (line_walk_along_x k _ _ (Z.sgn (xb - xa))).
    + cbn [In line_init origx origy]. rewrite in_run.
      destruct c as [cx cy]; cbn [fst snd]. split.
      * intros [H | (i & Hi & H)].
        -- injection H as <- <-. lia.
        -- injection H as -> ->. subst k. split; [lia|].
           destruct (Z.sgn_spec (xb - xa)) as [[? ->]|[[? ->]|[? ->]]]; lia.
      * intros [-> Hc]. destruct (Z.eq_dec cx xa) as [->|Hcx]; [now left|].
        right. exists (Z.abs (cx - xa)). subst k. split; [lia|]. f_equal; [|lia].
        destruct (Z.sgn_spec (xb - xa)) as [[? ->]|[[? ->]|[? ->]]]; lia.
    + subst k. lia.
    + unfold along_x, line_init;
        cbn [stepx stepy deltax deltay origx origy destx desty]. subst k.
      destruct (Z.sgn_spec (xb - xa)) as [[? ->]|[[? ->]|[? ->]]];
        repeat split; try lia.
Qed.

(** A vertical line likewise. *)
Lemma bresenham_vertical (x0 ya yb : Z) (c : Z * Z) :
  In c (bresenham (x0, ya) (x0, yb)) <->
  fst c = x0 /\ Z.min ya yb <= snd c <= Z.max ya yb.
Proof.
  unfold bresenham. rewrite Z.eqb_refl, andb_true_l.
  destruct (Z.eqb_spec ya yb) as [->|Hne].
  - cbn [In]. destruct c as [cx cy]; cbn [fst snd]. split.
    + intros [H|[]]. injection H as <- <-. lia.
    + intros [-> H]. left. f_equal. lia.
  - set (k := Z.to_nat (Z.abs (yb - ya))).
    rewrite (line_walk_along_y k _ _ (Z.sgn (yb - ya))).
    + cbn [In line_init origx origy]. rewrite in_run.
      destruct c as [cx cy]; cbn [fst snd]. split.
      * intros [H | (i & Hi & H)].
        -- injection H as <- <-. lia.
        -- injection H as -> ->. subst k. split; [lia|].
           destruct (Z.sgn_spec (yb - ya)) as [[? ->]|[[? ->]|[? ->]]]; lia.
      * intros [-> Hc]. destruct (Z.eq_dec cy ya) as [->|Hcy]; [now left|].
        right. exists (Z.abs (cy - ya)). subst k. split; [lia|]. f_equal; [lia|].
        destruct (Z.sgn_spec (yb - ya)) as [[? ->]|[[? ->]|[? ->]]]; lia.
    + subst k. lia.
    + unfold along_y, line_init;
        cbn [stepx stepy deltax deltay origx origy destx desty]. subst k.
      destruct (Z.sgn_spec (yb - ya)) as [[? ->]|[[? ->]|[? ->]]];
        repeat split; try lia.
Qed.

(** ** Tunnels *)

Lemma tunnel_between_cells (p q : Z * Z) (g : RNG) (c : Z * Z) :
  In c (fst (tunnel_between p q g)) <-> on_tunnel (Z.even (draws g (pos g))) p q c.
Proof.
  destruct p as [xa ya], q as [xb yb].
  unfold tunnel_between, random_lt_half, rng_next, on_tunnel. cbn [fst snd].
  destruct (Z.even (draws g (pos g))); cbn [fst]; rewrite in_app_iff.
  - now rewrite bresenham_horizontal, bresenham_vertical.
  - now rewrite bresenham_vertical, bresenham_horizontal.
Qed.

Lemma on_tunnel_end heads p q : on_tunnel heads p q q.
Proof. unfold on_tunnel. destruct heads; right; lia. Qed.

(** A tunnel stays inside the bounding box of its two ends. *)
Lemma on_tunnel_box heads p q c :
  on_tunnel heads p q c ->
  Z.min (fst p) (fst q) <= fst c <= Z.max (fst p) (fst q) /\
  Z.min (snd p) (snd q) <= snd c <= Z.max (snd p) (snd q).
Proof. unfold on_tunnel. destruct heads; intros [H|H]; lia. Qed.

(** ** Tile assignments *)

Lemma is_floor_true d c : is_floor d c = true <-> tiles d (fst c) (snd c) = floor.
Proof. unfold is_floor. destruct (tiles d (fst c) (snd c)); cbn; split; congruence. Qed.

Lemma norm_index_in_range len i : 0 <= i <= len - 1 -> norm_index len i = Ok i.
Proof.
  intros H. unfold norm_index.
  destruct (Z.ltb_spec i (- len)); [lia|].
  destruct (Z.leb_spec len i); [lia|]. cbn.
  destruct (Z.ltb_spec i 0); [lia|reflexivity].
Qed.

Lemma set_tile_in_range d x y v :
  0 <= x <= width d - 1 -> 0 <= y <= height d - 1 ->
  exists d', set_tile d x y v = Ok d' /\
    width d' = width d /\ height d' = height d /\
    forall a b, tiles d' a b = if (a =? x) && (b =? y) then v else tiles d a b.
Proof.
  intros Hx Hy. unfold set_tile.
  rewrite (norm_index_in_range _ _ Hx), (norm_index_in_range _ _ Hy). cbn.
  eexists. split; [reflexivity|]. cbn. auto.
Qed.

Lemma is_floor_set_slice d s c :
  is_floor (set_slice d s floor) c
  = (in_slice (width d) (fst s) (fst c) && in_slice (height d) (snd s) (snd c))
    || is_floor d c.
Proof.
  unfold is_floor, set_slice. cbn.
  destruct (in_slice (width d) (fst s) (fst c) && in_slice (height d) (snd s) (snd c));
    reflexivity.
Qed.

(** Carving a list of cells that lie inside the map never fails; it
    turns exactly these cells into floor and logs them in order. *)
Lemma carve_cells_in_range cells : forall d tr,
  (forall c, In c cells -> 0 <= fst c <= width d - 1 /\ 0 <= snd c <= height d - 1) ->
  exists d', fold_left carve_cell cells (Ok (d, tr)) = Ok (d', tr ++ map WriteCell cells) /\
    width d' = width d /\ height d' = height d /\
    forall c, is_floor d' c = true <-> In c cells \/ is_floor d c = true.
Proof.
  induction cells as [|c0 cells IH]; intros d tr Hin.
  - exists d. cbn. rewrite app_nil_r. repeat split; tauto.
  - destruct (Hin c0 (or_introl eq_refl)) as [Hx Hy].
    destruct (set_tile_in_range d (fst c0) (snd c0) floor Hx Hy)
      as (d1 & Hset & Hw & Hh & Htiles).
    destruct (IH d1 (tr ++ [WriteCell c0])) as (d' & Hfold & Hw' & Hh' & Hfl).
    { intros c Hc. rewrite Hw, Hh. apply Hin. now right. }
    exists d'. cbn [fold_left]. unfold carve_cell at 2. cbn [bind].
    rewrite Hset. cbn [bind]. rewrite Hfold.
    split; [|split; [congruence|split; [congruence|]]].
    + f_equal. f_equal. rewrite <- app_assoc. reflexivity.
    + intros c. rewrite Hfl. rewrite !is_floor_true, Htiles. cbn [In].
      destruct c as [cx cy], c0 as [ax ay]; cbn [fst snd].
      destruct (Z.eqb_spec cx ax) as [->|Hn1];
        destruct (Z.eqb_spec cy ay) as [->|Hn2]; cbn [andb];
        intuition congruence.
Qed.

(** ** Connected floor *)

Lemma adjacent_sym a b : adjacent a b -> adjacent b a.
Proof. unfold adjacent. lia. Qed.

Lemma connected_trans d a b c :
  connected d a b -> connected d b c -> connected d a c.
Proof.
  intros Hab Hbc. induction Hbc as [|b' c' _ IH Hadj Hb Hc]; [assumption|].
  eapply connected_step; eassumption.
Qed.

Lemma connected_one d a b :
  adjacent a b -> is_floor d a = true -> is_floor d b = true -> connected d a b.
Proof. intros. eapply connected_step; eauto using connected_here. Qed.

Lemma connected_sym d a b : connected d a b -> connected d b a.
Proof.
  induction 1 as [|b c _ IH Hadj Hb Hc]; [constructor|].
  eapply connected_trans; [|exact IH].
  apply connected_one; auto using adjacent_sym.
Qed.

Lemma connected_mono d d' a b :
  (forall c, is_floor d c = true -> is_floor d' c = true) ->
  connected d a b -> connected d' a b.
Proof.
  intros Hsub. induction 1 as [|b c _ IH Hadj Hb Hc]; [constructor|].
  eapply connected_step; eauto.
Qed.

(** A path that leaves its start runs over floor from the first cell on. *)
Lemma connected_floor d a b :
  connected d a b -> a = b \/ (is_floor d a = true /\ is_floor d b = true).
Proof.
  induction 1 as [|b c _ IH Hadj Hb Hc]; [now left|].
  right. destruct IH as [->|[Ha _]]; auto.
Qed.

Lemma connected_east d y0 (n : nat) : forall xa,
  (forall x, xa <= x <= xa + Z.of_nat n -> is_floor d (x, y0) = true) ->
  connected d (xa, y0) (xa + Z.of_nat n, y0).
Proof.
  induction n as [|n IH]; intros xa Hfl.
  - replace (xa + Z.of_nat 0) with xa by lia. constructor.
  - eapply connected_step with (b := (xa + Z.of_nat n, y0)).
    + apply IH. intros x Hx. apply Hfl. lia.
    + unfold adjacent. cbn [fst snd]. lia.
    + apply Hfl. lia.
    + apply Hfl. lia.
Qed.

Lemma connected_south d x0 (n : nat) : forall ya,
  (forall y, ya <= y <= ya + Z.of_nat n -> is_floor d (x0, y) = true) ->
  connected d (x0, ya) (x0, ya + Z.of_nat n).
Proof.
  induction n as [|n IH]; intros ya Hfl.
  - replace (ya + Z.of_nat 0) with ya by lia. constructor.
  - eapply connected_step with (b := (x0, ya + Z.of_nat n)).
    + apply IH. intros y Hy. apply Hfl. lia.
    + unfold adjacent. cbn [fst snd]. lia.
    + apply Hfl. lia.
    + apply Hfl. lia.
Qed.

Lemma connected_hline d y0 xa xb :
  (forall x, Z.min xa xb <= x <= Z.max xa xb -> is_floor d (x, y0) = true) ->
  connected d (xa, y0) (xb, y0).
Proof.
  intros Hfl. destruct (Z.le_ge_cases xa xb) as [Hle|Hge].
  - pose proof (connected_east d y0 (Z.to_nat (xb - xa)) xa) as Hrun.
    replace (xa + Z.of_nat (Z.to_nat (xb - xa))) with xb in Hrun by lia.
    apply Hrun. intros x Hx. apply Hfl. lia.
  - apply connected_sym.
    pose proof (connected_east d y0 (Z.to_nat (xa - xb)) xb) as Hrun.
    replace (xb + Z.of_nat (Z.to_nat (xa - xb))) with xa in Hrun by lia.
    apply Hrun. intros x Hx. apply Hfl. lia.
Qed.

Lemma connected_vline d x0 ya yb :
  (forall y, Z.min ya yb <= y <= Z.max ya yb -> is_floor d (x0, y) = true) ->
  connected d (x0, ya) (x0, yb).
Proof.
  intros Hfl. destruct (Z.le_ge_cases ya yb) as [Hle|Hge].
  - pose proof (connected_south d x0 (Z.to_nat (yb - ya)) ya) as Hrun.
    replace (ya + Z.of_nat (Z.to_nat (yb - ya))) with yb in Hrun by lia.
    apply Hrun. intros y Hy. apply Hfl. lia.
  - apply connected_sym.
    pose proof (connected_south d x0 (Z.to_nat (ya - yb)) yb) as Hrun.
    replace (yb + Z.of_nat (Z.to_nat (ya - yb))) with ya in Hrun by lia.
    apply Hrun. intros y Hy. apply Hfl. lia.
Qed.

(** A rectangle of floor is connected. *)
Lemma connected_rectangle d xa xb ya yb p q :
  (forall c, xa <= fst c <= xb -> ya <= snd c <= yb -> is_floor d c = true) ->
  xa <= fst p <= xb -> ya <= snd p <= yb ->
  xa <= fst q <= xb -> ya <= snd q <= yb ->
  connected d p q.
Proof.
  destruct p as [px py], q as [qx qy]; cbn [fst snd]. intros Hfl Hpx Hpy Hqx Hqy.
  apply connected_trans with (b := (qx, py)).
  - apply connected_hline. intros x Hx. apply Hfl; cbn [fst snd]; lia.
  - apply connected_vline. intros y Hy. apply Hfl; cbn [fst snd]; lia.
Qed.

(** Every cell of a carved tunnel is connected to its start. *)
Lemma connected_tunnel d heads p q c :
  (forall c', on_tunnel heads p q c' -> is_floor d c' = true) ->
  on_tunnel heads p q c -> connected d p c.
Proof.
  destruct p as [xa ya], q as [xb yb], c as [cx cy].
  unfold on_tunnel; cbn [fst snd]. intros Hfl Hc.
  destruct heads.
  - destruct Hc as [[-> Hx]|[-> Hy]].
    + apply connected_hline. intros x Hx'. apply Hfl. left. cbn [fst snd]. lia.
    + apply connected_trans with (b := (xb, ya)).
      * apply connected_hline. intros x Hx'. apply Hfl. left. cbn [fst snd]. lia.
      * apply connected_vline. intros y Hy'. apply Hfl. right. cbn [fst snd]. lia.
  - destruct Hc as [[-> Hy]|[-> Hx]].
    + apply connected_vline. intros y Hy'. apply Hfl. left. cbn [fst snd]. lia.
    + apply connected_trans with (b := (xa, yb)).
      * apply connected_vline. intros y Hy'. apply Hfl. left. cbn [fst snd]. lia.
      * apply connected_hline. intros x Hx'. apply Hfl. right. cbn [fst snd]. lia.
Qed.

(** ** Rooms inside the map *)

Lemma int_half_bounds a b : 0 <= a -> a <= b -> a <= int_half (a + b) <= b.
Proof.
  intros Ha Hab. unfold int_half. rewrite Z.quot_div_nonneg by lia.
  pose proof (Z.div_mod (a + b) 2 ltac:(lia)).
  pose proof (Z.mod_pos_bound (a + b) 2 ltac:(lia)). lia.
Qed.

Lemma int_half_inner a b : 0 <= a -> a + 2 <= b -> a + 1 <= int_half (a + b) < b.
Proof.
  intros Ha Hab. unfold int_half. rewrite Z.quot_div_nonneg by lia.
  pose proof (Z.div_mod (a + b) 2 ltac:(lia)).
  pose proof (Z.mod_pos_bound (a + b) 2 ltac:(lia)). lia.
Qed.

Lemma center_in_room w h r :
  room_in_map w h r ->
  x1 r <= fst (center r) <= x2 r /\ y1 r <= snd (center r) <= y2 r.
Proof.
  intros (? & ? & ? & ? & ? & ?). unfold center; cbn [fst snd].
  split; apply int_half_bounds; assumption.
Qed.

(** In a room inside the map no slice bound is clipped: the carved
    interior is [x1+1 .. x2-1] x [y1+1 .. y2-1]. *)
Lemma in_inner w h r c :
  room_in_map w h r ->
  in_slice w (fst (inner r)) (fst c) && in_slice h (snd (inner r)) (snd c) = true
  <-> (x1 r + 1 <= fst c <= x2 r - 1 /\ y1 r + 1 <= snd c <= y2 r - 1).
Proof.
  intros (? & ? & ? & ? & ? & ?).
  unfold in_slice, inner, clip_bound; cbn [fst snd start stop].
  rewrite !andb_true_iff, !Z.leb_le, !Z.ltb_lt.
  destruct (Z.ltb_spec (x1 r + 1) 0); [lia|].
  destruct (Z.ltb_spec (x2 r) 0); [lia|].
  destruct (Z.ltb_spec (y1 r + 1) 0); [lia|].
  destruct (Z.ltb_spec (y2 r) 0); [lia|]. lia.
Qed.

(** ** One placement attempt *)

(** What a completed attempt has done: it drew a size and an origin that
    fits, then either rejected the room and changed nothing but the
    random source, or appended it after carving. *)
Lemma place_room_inv lo hi s s' :
  place_room lo hi s = Ok s' ->
  exists w h x y,
    lo <= w <= hi /\ lo <= h <= hi /\
    0 <= x <= width (dungeon s) - w - 1 /\
    0 <= y <= height (dungeon s) - h - 1 /\
    ((existsb (intersects (new_room x y w h)) (rooms s) = true /\
      dungeon s' = dungeon s /\ rooms s' = rooms s /\
      player s' = player s /\ trace s' = trace s)
     \/
     (existsb (intersects (new_room x y w h)) (rooms s) = false /\
      rooms s' = rooms s ++ [new_room x y w h] /\
      match rooms s with
      | [] =>
          dungeon s' = set_slice (dungeon s) (inner (new_room x y w h)) floor /\
          player s' = {| ent_x := fst (center (new_room x y w h));
                         ent_y := snd (center (new_room x y w h)) |} /\
          trace s' = trace s ++ [WriteSlice (inner (new_room x y w h))]
      | r0 :: rest =>
          player s' = player s /\
          exists g4,
            fold_left carve_cell
              (fst (tunnel_between (center (last rest r0))
                      (center (new_room x y w h)) g4))
              (Ok (set_slice (dungeon s) (inner (new_room x y w h)) floor,
                   trace s ++ [WriteSlice (inner (new_room x y w h))]))
            = Ok (dungeon s', trace s')
      end)).
Proof.
  unfold place_room. intros H.
  destruct (randint lo hi (rng s)) as [[w g1]|] eqn:E1; cbn [bind] in H; [|discriminate].
  destruct (randint lo hi g1) as [[h g2]|] eqn:E2; cbn [bind] in H; [|discriminate].
  destruct (randint 0 (width (dungeon s) - w - 1) g2) as [[x g3]|] eqn:E3;
    cbn [bind] in H; [|discriminate].
  destruct (randint 0 (height (dungeon s) - h - 1) g3) as [[y g4]|] eqn:E4;
    cbn [bind] in H; [|discriminate].
  apply randint_inv in E1, E2, E3, E4.
  exists w, h, x, y. repeat (split; [tauto|]).
  destruct (existsb (intersects (new_room x y w h)) (rooms s)) eqn:Eint.
  - left. injection H as <-. cbn. auto.
  - right. split; [reflexivity|].
    destruct (rooms s) as [|r0 rest] eqn:Er.
    + injection H as <-. cbn. auto.
    + destruct (tunnel_between (center (last rest r0)) (center (new_room x y w h)) g4)
        as [cells g5] eqn:Et.
      destruct (fold_left carve_cell cells _) as [[d2 tr2]|] eqn:Ef;
        cbn [bind] in H; [|discriminate].
      injection H as <-. cbn [rooms player dungeon trace].
      split; [reflexivity|]. split; [reflexivity|].
      exists g4. rewrite Et. exact Ef.
Qed.

(** An invariant of the attempts is an invariant of the loop. *)
Lemma repeat_rooms_inv (P : gen_state -> Prop) lo hi :
  (forall s s', P s -> place_room lo hi s = Ok s' -> P s') ->
  forall n s s', P s -> repeat_rooms n lo hi s = Ok s' -> P s'.
Proof.
  intros Hstep. induction n as [|n IH]; intros s s' Hs Hrun; cbn in Hrun.
  - now injection Hrun as <-.
  - destruct (place_room lo hi s) as [s1|] eqn:E; cbn [bind] in Hrun; [|discriminate].
    eapply IH; [|exact Hrun]. eapply Hstep; eassumption.
Qed.

(** A loop whose attempts all complete from invariant states completes. *)
Lemma repeat_rooms_total (P : gen_state -> Prop) lo hi :
  (forall s, P s -> exists s', place_room lo hi s = Ok s' /\ P s') ->
  forall n s, P s -> exists s', repeat_rooms n lo hi s = Ok s' /\ P s'.
Proof.
  intros Hstep. induction n as [|n IH]; intros s Hs; cbn.
  - now exists s.
  - destruct (Hstep s Hs) as (s1 & -> & Hs1). cbn [bind]. now apply IH.
Qed.

Lemma generate_dungeon_inv max_rooms lo hi w h pl g s :
  generate_dungeon max_rooms lo hi w h pl g = Ok s ->
  0 <= w /\ 0 <= h /\
  repeat_rooms (Z.to_nat max_rooms) lo hi
    {| dungeon := {| width := w; height := h; tiles := fun _ _ => wall |};
       rooms := []; player := pl; rng := g; trace := [] |} = Ok s.
Proof.
  unfold generate_dungeon, new_GameMap.
  destruct (Z.ltb_spec w 0); cbn; [discriminate|].
  destruct (Z.ltb_spec h 0); cbn; [discriminate|]. auto.
Qed.

(** ** Accepted rooms do not overlap *)

Lemma intersects_sym a b : intersects a b = intersects b a.
Proof.
  unfold intersects.
  rewrite !Z.geb_leb.
  destruct (x1 a <=? x2 b), (x1 b <=? x2 a), (y1 a <=? y2 b), (y1 b <=? y2 a);
    reflexivity.
Qed.

Lemma intersects_shared_cell a b c :
  in_rectangle a c -> in_rectangle b c -> intersects a b = true.
Proof.
  unfold in_rectangle, intersects. intros Ha Hb.
  rewrite !Z.geb_leb, !andb_true_iff, !Z.leb_le. lia.
Qed.

Lemma ordered_apart_app l r :
  ordered_apart l -> existsb (intersects r) l = false -> ordered_apart (l ++ [r]).
Proof.
  intros Hl Hr i j a b Hij Ha Hb.
  assert (Hj : (j < List.length (l ++ [r]))%nat)
    by (apply nth_error_Some; congruence).
  rewrite length_app in Hj. cbn in Hj.
  rewrite nth_error_app1 in Ha by lia.
  destruct (Nat.eq_dec j (List.length l)) as [->|Hne].
  - rewrite nth_error_app2, Nat.sub_diag in Hb by lia.
    injection Hb as <-. rewrite intersects_sym.
    apply nth_error_In in Ha.
    destruct (intersects r a) eqn:E; [|reflexivity].
    assert (existsb (intersects r) l = true) by (apply existsb_exists; eauto).
    congruence.
  - rewrite nth_error_app1 in Hb by lia. exact (Hl i j a b Hij Ha Hb).
Qed.

Lemma ordered_apart_place lo hi s s' :
  ordered_apart (rooms s) -> place_room lo hi s = Ok s' -> ordered_apart (rooms s').
Proof.
  intros Hs Hplace.
  destruct (place_room_inv _ _ _ _ Hplace)
    as (w & h & x & y & _ & _ & _ & _ & [(_ & _ & -> & _)|(Hnew & -> & _)]).
  - exact Hs.
  - now apply ordered_apart_app.
Qed.

Lemma ordered_apart_non_overlapping l : ordered_apart l -> non_overlapping l.
Proof.
  intros Hl i j a b Hij Ha Hb.
  assert (Hab : intersects a b = false).
  { destruct (Nat.lt_total i j) as [Hlt|[Heq|Hgt]]; [|contradiction|].
    - exact (Hl i j a b Hlt Ha Hb).
    - rewrite intersects_sym. exact (Hl j i b a Hgt Hb Ha). }
  split; [exact Hab|].
  intros c [Hca Hcb]. rewrite (intersects_shared_cell a b c Hca Hcb) in Hab.
  discriminate.
Qed.

(** C1.  Whatever the random draws and the parameters, the rooms accepted
    by a completed [generate_dungeon] are pairwise apart under the
    closed-interval test: [intersects] is false on any two of them and
    their closed rectangles [x1..x2] x [y1..y2] share no cell, not even on
    an edge. *)
Theorem accepted_rooms_do_not_overlap
  (max_rooms room_min_size room_max_size map_width map_height : Z)
  (pl : Entity) (g : RNG) (s : gen_state) :
  generate_dungeon max_rooms room_min_size room_max_size map_width map_height pl g
  = Ok s ->
  non_overlapping (rooms s).
Proof.
  intros Hgen. apply generate_dungeon_inv in Hgen as (_ & _ & Hrun).
  apply ordered_apart_non_overlapping.
  eapply (repeat_rooms_inv (fun st => ordered_apart (rooms st))); [| |exact Hrun].
  - intros st st'. apply ordered_apart_place.
  - intros i j a b _ Ha. destruct i; discriminate.
Qed.

(** ** The effect of an attempt on a well-placed state *)

Lemma last_in (r0 : RectangularRoom) rest : In (last rest r0) (r0 :: rest).
Proof.
  induction rest as [|r1 rest IH]; [now left|].
  destruct rest as [|r2 rest']; [right; now left|].
  change (last (r1 :: r2 :: rest') r0) with (last (r2 :: rest') r0).
  destruct IH as [<-|IH]; [now left|]. right. now right.
Qed.

Lemma new_room_in_map w h lo x y rw rh :
  0 <= lo -> lo <= rw -> lo <= rh ->
  0 <= x <= w - rw - 1 -> 0 <= y <= h - rh - 1 ->
  room_in_map w h (new_room x y rw rh).
Proof. unfold room_in_map, new_room; cbn. lia. Qed.

Lemma inner_in_bounds w h r :
  room_in_map w h r -> write_in_bounds w h (WriteSlice (inner r)).
Proof. unfold room_in_map, write_in_bounds, inner; cbn. lia. Qed.

Lemma tunnel_in_map w h p q g c :
  0 <= fst p <= w - 1 -> 0 <= snd p <= h - 1 ->
  0 <= fst q <= w - 1 -> 0 <= snd q <= h - 1 ->
  In c (fst (tunnel_between p q g)) ->
  0 <= fst c <= w - 1 /\ 0 <= snd c <= h - 1.
Proof.
  intros Hpx Hpy Hqx Hqy Hc. apply tunnel_between_cells, on_tunnel_box in Hc. lia.
Qed.

Lemma center_in_map w h r :
  room_in_map w h r ->
  0 <= fst (center r) <= w - 1 /\ 0 <= snd (center r) <= h - 1.
Proof.
  intros Hr. pose proof (center_in_room w h r Hr).
  destruct Hr as (? & ? & ? & ? & ? & ?). lia.
Qed.

Lemma place_room_step lo hi w h s s' :
  0 <= lo -> well_placed w h s -> place_room lo hi s = Ok s' ->
  well_placed w h s' /\
  ((rooms s' = rooms s /\ dungeon s' = dungeon s /\
    player s' = player s /\ trace s' = trace s)
   \/
   exists room,
     room_in_map w h room /\
     existsb (intersects room) (rooms s) = false /\
     rooms s' = rooms s ++ [room] /\
     match rooms s with
     | [] =>
         player s' = {| ent_x := fst (center room); ent_y := snd (center room) |} /\
         trace s' = trace s ++ [WriteSlice (inner room)] /\
         forall c, is_floor (dungeon s') c = true <->
                   in_interior room c \/ is_floor (dungeon s) c = true
     | r0 :: rest =>
         player s' = player s /\
         exists g4,
           trace s' = (trace s ++ [WriteSlice (inner room)])
                      ++ map WriteCell
                           (fst (tunnel_between (center (last rest r0)) (center room) g4)) /\
           forall c, is_floor (dungeon s') c = true <->
                     In c (fst (tunnel_between (center (last rest r0)) (center room) g4))
                     \/ in_interior room c \/ is_floor (dungeon s) c = true
     end).
Proof.
  intros Hlo (Hw & Hh & Hrooms & Htrace) Hplace.
  destruct (place_room_inv _ _ _ _ Hplace)
    as (rw & rh & x & y & Hrw & Hrh & Hx & Hy & Hcase).
  rewrite Hw in Hx. rewrite Hh in Hy.
  assert (Hroom : room_in_map w h (new_room x y rw rh))
    by (apply (new_room_in_map w h lo); lia).
  set (room := new_room x y rw rh) in *.
  assert (Hslice : forall c,
             is_floor (set_slice (dungeon s) (inner room) floor) c = true <->
             in_interior room c \/ is_floor (dungeon s) c = true).
  { intros c. rewrite is_floor_set_slice, orb_true_iff, Hw, Hh.
    rewrite (in_inner w h room c Hroom). reflexivity. }
  destruct Hcase as [(_ & Hd & Hr & Hp & Ht)|(Hnew & Hr & Hcase)].
  - split; [|now left].
    unfold well_placed. rewrite Hd, Hr, Ht. auto.
  - destruct (rooms s) as [|r0 rest] eqn:Er.
    + destruct Hcase as (Hd & Hp & Ht). split.
      * unfold well_placed. rewrite Hd, Hr, Ht. cbn [width height set_slice].
        split; [assumption|]. split; [assumption|]. split.
        -- apply Forall_app. split; [assumption|]. constructor; [assumption|constructor].
        -- apply Forall_app. split; [assumption|].
           constructor; [now apply inner_in_bounds|constructor].
      * right. exists room. rewrite Hd. repeat (split; [assumption|]). exact Hslice.
    + destruct Hcase as (Hp & g4 & Hfold).
      set (cells := fst (tunnel_between (center (last rest r0)) (center room) g4)) in *.
      assert (Hlast : room_in_map w h (last rest r0)).
      { eapply Forall_forall; [exact Hrooms|apply last_in]. }
      assert (Hcells : forall c, In c cells ->
                 0 <= fst c <= w - 1 /\ 0 <= snd c <= h - 1).
      { intros c Hc. pose proof (center_in_map w h _ Hlast).
        pose proof (center_in_map w h _ Hroom).
        eapply (tunnel_in_map w h); [| | | |exact Hc]; tauto. }
      destruct (carve_cells_in_range cells
                  (set_slice (dungeon s) (inner room) floor)
                  (trace s ++ [WriteSlice (inner room)]))
        as (d' & Hfold' & Hw' & Hh' & Hfl).
      { cbn [width height set_slice]. rewrite Hw, Hh. exact Hcells. }
      rewrite Hfold' in Hfold. injection Hfold as Hd Ht.
      split.
      * unfold well_placed. rewrite <- Hd, <- Ht, Hr, Hw', Hh'.
        cbn [width height set_slice].
        split; [assumption|]. split; [assumption|]. split.
        -- apply Forall_app. split; [assumption|]. constructor; [assumption|constructor].
        -- apply Forall_app. split.
           ++ apply Forall_app. split; [assumption|].
              constructor; [now apply inner_in_bounds|constructor].
           ++ apply Forall_forall. intros wr Hwr. apply in_map_iff in Hwr.
              destruct Hwr as (c & <- & Hc). cbn. now apply Hcells.
      * right. exists room. repeat (split; [assumption|]).
        exists g4. fold cells. split; [now rewrite <- Ht|].
        intros c. rewrite <- Hd, Hfl, Hslice. reflexivity.
Qed.

(** ** No attempt fails under the size precondition *)

Lemma place_room_total lo hi w h s :
  size_precondition lo hi w h -> well_placed w h s ->
  exists s', place_room lo hi s = Ok s'.
Proof.
  intros (Hlo & Hlh & Hhw & Hhh) (Ew & Eh & Hrooms & _).
  unfold place_room.
  pose proof (Z.mod_pos_bound (draws (rng s) (pos (rng s))) (hi - lo + 1) ltac:(lia))
    as Hb1.
  pose proof (Z.mod_pos_bound (draws (rng s) (S (pos (rng s)))) (hi - lo + 1) ltac:(lia))
    as Hb2.
  rewrite randint_ok by lia. cbn [bind draws pos].
  rewrite randint_ok by lia. cbn [bind draws pos].
  set (rw := lo + draws (rng s) (pos (rng s)) mod (hi - lo + 1)) in *.
  set (rh := lo + draws (rng s) (S (pos (rng s))) mod (hi - lo + 1)) in *.
  rewrite Ew, Eh.
  rewrite randint_ok by lia. cbn [bind draws pos].
  rewrite randint_ok by lia. cbn [bind draws pos].
  set (x := 0 + _ mod (w - rw - 1 - 0 + 1)).
  set (y := 0 + _ mod (h - rh - 1 - 0 + 1)).
  assert (Hx : 0 <= x <= w - rw - 1).
  { subst x. match goal with |- context [?r mod ?m] =>
      pose proof (Z.mod_pos_bound r m ltac:(lia)) end. lia. }
  assert (Hy : 0 <= y <= h - rh - 1).
  { subst y. match goal with |- context [?r mod ?m] =>
      pose proof (Z.mod_pos_bound r m ltac:(lia)) end. lia. }
  assert (Hroom : room_in_map w h (new_room x y rw rh))
    by (apply (new_room_in_map w h lo); lia).
  destruct (existsb (intersects (new_room x y rw rh)) (rooms s)); [eauto|].
  destruct (rooms s) as [|r0 rest] eqn:Er; [eauto|].
  match goal with |- context [tunnel_between ?p ?q ?g] =>
    destruct (tunnel_between p q g) as [cells g5] eqn:Et;
    assert (Hcells : cells = fst (tunnel_between p q g)) by now rewrite Et
  end.
  assert (Hlast : room_in_map w h (last rest r0)).
  { eapply Forall_forall; [exact Hrooms|apply last_in]. }
  destruct (carve_cells_in_range cells
              (set_slice (dungeon s) (inner (new_room x y rw rh)) floor)
              (trace s ++ [WriteSlice (inner (new_room x y rw rh))]))
    as (d' & -> & _).
  { cbn [width height set_slice]. rewrite Ew, Eh, Hcells. intros c Hc.
    pose proof (center_in_map w h _ Hlast).
    pose proof (center_in_map w h _ Hroom).
    eapply (tunnel_in_map w h); [| | | |exact Hc]; tauto. }
  cbn [bind]. eauto.
Qed.

Lemma initial_well_placed w h pl g :
  well_placed w h
    {| dungeon := {| width := w; height := h; tiles := fun _ _ => wall |};
       rooms := []; player := pl; rng := g; trace := [] |}.
Proof. unfold well_placed; cbn. auto. Qed.

(** C9.  Under the documented precondition on the sizes, no random range
    is empty and no tile index is out of range: [generate_dungeon]
    completes for every sequence of draws (neither a [ValueError] nor an
    [IndexError]), and every tile assignment it made, the slice of a room
    interior as well as the cell of a tunnel, had index expressions inside
    the [map_width] x [map_height] array. *)
Theorem generation_stays_in_bounds
  (max_rooms room_min_size room_max_size map_width map_height : Z)
  (pl : Entity) (g : RNG) :
  size_precondition room_min_size room_max_size map_width map_height ->
  exists s,
    generate_dungeon max_rooms room_min_size room_max_size map_width map_height pl g
    = Ok s /\
    Forall (write_in_bounds map_width map_height) (trace s) /\
    Forall (room_in_map map_width map_height) (rooms s).
Proof.
  intros Hpre. pose proof Hpre as (Hlo & Hlh & Hhw & Hhh).
  unfold generate_dungeon, new_GameMap.
  destruct (Z.ltb_spec map_width 0); [lia|].
  destruct (Z.ltb_spec map_height 0); [lia|]. cbn [orb bind].
  destruct (repeat_rooms_total (well_placed map_width map_height)
              room_min_size room_max_size) with
    (n := Z.to_nat max_rooms)
    (s := {| dungeon := {| width := map_width; height := map_height;
                           tiles := fun _ _ => wall |};
             rooms := []; player := pl; rng := g; trace := [] |})
    as (s & Hrun & (_ & _ & Hrooms & Htrace)).
  - intros st Hst.
    destruct (place_room_total _ _ _ _ st Hpre Hst) as (st' & Hplace).
    exists st'. split; [assumption|].
    eapply place_room_step; [|exact Hst|exact Hplace]. lia.
  - apply initial_well_placed.
  - exists s. auto.
Qed.

(** ** Connectivity of the carved floor *)

Lemma interior_connected w h d room c :
  room_in_map w h room ->
  (forall c', in_interior room c' -> is_floor d c' = true) ->
  in_interior room c -> connected d (center room) c.
Proof.
  intros (Hx0 & _ & _ & Hy0 & _ & _) Hfl Hc.
  pose proof Hc as [Hcx Hcy].
  apply connected_rectangle
    with (xa := x1 room + 1) (xb := x2 room - 1)
         (ya := y1 room + 1) (yb := y2 room - 1); try assumption.
  - intros c' ? ?. apply Hfl. split; assumption.
  - unfold center; cbn [fst].
    pose proof (int_half_inner (x1 room) (x2 room) Hx0 ltac:(lia)). lia.
  - unfold center; cbn [snd].
    pose proof (int_half_inner (y1 room) (y2 room) Hy0 ltac:(lia)). lia.
Qed.

Lemma all_connected_place lo hi w h s s' :
  0 <= lo -> well_placed w h s -> all_connected s ->
  place_room lo hi s = Ok s' -> all_connected s'.
Proof.
  intros Hlo Hwp Hconn Hplace.
  destruct (place_room_step lo hi w h s s' Hlo Hwp Hplace)
    as (_ & [(Hr & Hd & _)|(room & Hroom & _ & Hr & Hcase)]).
  - unfold all_connected in *. now rewrite Hr, Hd.
  - unfold all_connected in *. rewrite Hr.
    destruct (rooms s) as [|r1 rest] eqn:Er.
    + destruct Hcase as (_ & _ & Hfl). cbn [app]. split.
      * intros c Hc. apply Hfl in Hc. destruct Hc as [Hc|Hc]; [|congruence].
        apply (interior_connected w h); [assumption| |assumption].
        intros c' Hc'. apply Hfl. now left.
      * intros r [<-|[]]. constructor.
    + destruct Hcase as (_ & g4 & _ & Hfl).
      destruct Hconn as [Hfloor Hcenters].
      set (p := center (last rest r1)) in *.
      set (heads := Z.even (draws g4 (pos g4))).
      assert (Htun : forall c, on_tunnel heads p (center room) c ->
                               is_floor (dungeon s') c = true).
      { intros c Hc. apply Hfl. left. now apply tunnel_between_cells. }
      assert (Hmono : forall c, is_floor (dungeon s) c = true ->
                                is_floor (dungeon s') c = true).
      { intros c Hc. apply Hfl. auto. }
      assert (Hp : connected (dungeon s') (center r1) p).
      { apply (connected_mono (dungeon s)); [exact Hmono|].
        apply Hcenters, last_in. }
      assert (Hq : connected (dungeon s') (center r1) (center room)).
      { eapply connected_trans; [exact Hp|].
        apply (connected_tunnel _ heads p (center room)); [exact Htun|].
        apply on_tunnel_end. }
      cbn [app]. split.
      * intros c Hc. apply Hfl in Hc. destruct Hc as [Hc|[Hc|Hc]].
        -- eapply connected_trans; [exact Hp|].
           apply (connected_tunnel _ heads p (center room)); [exact Htun|].
           now apply tunnel_between_cells.
        -- eapply connected_trans; [exact Hq|].
           apply (interior_connected w h); [assumption| |assumption].
           intros c' Hc'. apply Hfl. auto.
        -- apply (connected_mono (dungeon s)); auto.
      * intros r Hin. change (r1 :: rest ++ [room]) with ((r1 :: rest) ++ [room]) in Hin.
        apply in_app_iff in Hin. destruct Hin as [Hin|[<-|[]]].
        -- apply (connected_mono (dungeon s)); auto.
        -- exact Hq.
Qed.

(** C2.  When [generate_dungeon] has returned with at least one accepted
    room, every floor cell of the map is reached from the centre of the
    first accepted room through orthogonally adjacent floor cells (that
    centre being a floor cell itself), and so is the centre of every
    accepted room, whatever the random draws.  Room sizes are
    non-negative, as the documented precondition requires. *)
Theorem carved_floor_is_connected
  (max_rooms room_min_size room_max_size map_width map_height : Z)
  (pl : Entity) (g : RNG) (s : gen_state) (r1 : RectangularRoom)
  (rest : list RectangularRoom) :
  0 <= room_min_size ->
  generate_dungeon max_rooms room_min_size room_max_size map_width map_height pl g
  = Ok s ->
  rooms s = r1 :: rest ->
  (forall c, is_floor (dungeon s) c = true ->
             is_floor (dungeon s) (center r1) = true /\
             connected (dungeon s) (center r1) c) /\
  (forall r, In r (rooms s) -> connected (dungeon s) (center r1) (center r)).
Proof.
  intros Hlo Hgen Hrooms.
  apply generate_dungeon_inv in Hgen as (_ & _ & Hrun).
  assert (Hinv : well_placed map_width map_height s /\ all_connected s).
  { eapply (repeat_rooms_inv
              (fun st => well_placed map_width map_height st /\ all_connected st));
      [| |exact Hrun].
    - intros st st' [Hwp Hc] Hplace. split.
      + eapply place_room_step; eassumption.
      + eapply all_connected_place; eassumption.
    - split; [apply initial_well_placed|]. intros c. reflexivity. }
  destruct Hinv as [_ Hconn]. unfold all_connected in Hconn.
  rewrite Hrooms in Hconn. destruct Hconn as [Hfloor Hcenters].
  split.
  - intros c Hc. split; [|now apply Hfloor].
    destruct (connected_floor _ _ _ (Hfloor c Hc)) as [->|[H1 _]]; assumption.
  - rewrite Hrooms. exact Hcenters.
Qed.

(** ** The first attempt *)

Lemma first_room_in_map lo hi w h g :
  0 <= lo -> lo <= hi -> hi < w -> hi < h ->
  room_in_map w h (first_room lo hi w h g).
Proof.
  intros Hlo Hlh Hw Hh. unfold first_room.
  pose proof (Z.mod_pos_bound (draws g (pos g)) (hi - lo + 1) ltac:(lia)).
  pose proof (Z.mod_pos_bound (draws g (S (pos g))) (hi - lo + 1) ltac:(lia)).
  set (rw := lo + draws g (pos g) mod (hi - lo + 1)) in *.
  set (rh := lo + draws g (S (pos g)) mod (hi - lo + 1)) in *.
  pose proof (Z.mod_pos_bound (draws g (S (S (pos g)))) (w - rw - 1 - 0 + 1) ltac:(lia)).
  pose proof (Z.mod_pos_bound (draws g (S (S (S (pos g))))) (h - rh - 1 - 0 + 1) ltac:(lia)).
  apply (new_room_in_map w h lo); lia.
Qed.

(** With no room placed yet, the attempt is accepted: the overlap test
    ranges over the empty list. *)
Lemma first_attempt_accepted lo hi d pl g tr :
  lo <= hi -> hi < width d -> hi < height d ->
  place_room lo hi {| dungeon := d; rooms := []; player := pl; rng := g; trace := tr |}
  = Ok {| dungeon := set_slice d (inner (first_room lo hi (width d) (height d) g)) floor;
          rooms := [first_room lo hi (width d) (height d) g];
          player := at_center (first_room lo hi (width d) (height d) g);
          rng := {| draws := draws g; pos := S (S (S (S (pos g)))) |};
          trace := tr ++ [WriteSlice (inner (first_room lo hi (width d) (height d) g))] |}.
Proof.
  intros Hlh Hw Hh. unfold place_room. cbn [rng dungeon rooms player trace].
  pose proof (Z.mod_pos_bound (draws g (pos g)) (hi - lo + 1) ltac:(lia)).
  pose proof (Z.mod_pos_bound (draws g (S (pos g))) (hi - lo + 1) ltac:(lia)).
  rewrite randint_ok by lia. cbn [bind draws pos].
  rewrite randint_ok by lia. cbn [bind draws pos].
  rewrite randint_ok by lia. cbn [bind draws pos].
  rewrite randint_ok by lia. cbn [bind draws pos existsb app].
  reflexivity.
Qed.

Lemma first_room_kept_place lo hi w h r1 s s' :
  0 <= lo -> well_placed w h s -> first_room_kept r1 s ->
  place_room lo hi s = Ok s' -> first_room_kept r1 s'.
Proof.
  intros Hlo Hwp ((rest & Hrooms) & Hpl & Hfl) Hplace.
  destruct (place_room_step lo hi w h s s' Hlo Hwp Hplace)
    as (_ & [(Hr & Hd & Hp & _)|(room & _ & _ & Hr & Hcase)]).
  - unfold first_room_kept. rewrite Hr, Hd, Hp. eauto.
  - rewrite Hrooms in Hcase, Hr. destruct Hcase as (Hp & g4 & _ & Hfl').
    unfold first_room_kept. rewrite Hr, Hp. repeat split.
    + exists (rest ++ [room]). reflexivity.
    + assumption.
    + intros c Hc. apply Hfl'. auto.
Qed.

(** C10.  Under the documented precondition on the sizes and with
    [max_rooms >= 1], whatever the draws, [generate_dungeon] completes with
    at least one room: the room of the first attempt is accepted (no
    earlier room can reject it) and stays first in the list, its interior
    is floor, and the player stands at its centre. *)
Theorem first_attempt_always_places_a_room
  (max_rooms room_min_size room_max_size map_width map_height : Z)
  (pl : Entity) (g : RNG) :
  1 <= max_rooms ->
  size_precondition room_min_size room_max_size map_width map_height ->
  exists s rest,
    generate_dungeon max_rooms room_min_size room_max_size map_width map_height pl g
    = Ok s /\
    rooms s = first_room room_min_size room_max_size map_width map_height g :: rest /\
    player s = at_center (first_room room_min_size room_max_size map_width map_height g) /\
    forall c,
      in_interior (first_room room_min_size room_max_size map_width map_height g) c ->
      is_floor (dungeon s) c = true.
Proof.
  intros Hmax Hpre. pose proof Hpre as (Hlo & Hlh & Hhw & Hhh).
  set (r1 := first_room room_min_size room_max_size map_width map_height g).
  assert (Hr1 : room_in_map map_width map_height r1)
    by (apply first_room_in_map; lia).
  unfold generate_dungeon, new_GameMap.
  destruct (Z.ltb_spec map_width 0); [lia|].
  destruct (Z.ltb_spec map_height 0); [lia|]. cbn [orb bind].
  destruct (Z.to_nat max_rooms) as [|n] eqn:En; [lia|].
  cbn [repeat_rooms]. rewrite first_attempt_accepted by (cbn; lia).
  cbn [bind width height app]. fold r1.
  set (d0 := {| width := map_width; height := map_height; tiles := fun _ _ => wall |}).
  destruct (repeat_rooms_total
              (fun st => well_placed map_width map_height st /\ first_room_kept r1 st)
              room_min_size room_max_size) with
    (n := n)
    (s := {| dungeon := set_slice d0 (inner r1) floor; rooms := [r1];
             player := at_center r1;
             rng := {| draws := draws g; pos := S (S (S (S (pos g)))) |};
             trace := [WriteSlice (inner r1)] |})
    as (s & Hrun & _ & (rest & Hrooms) & Hpl & Hfl).
  - intros st [Hwp Hkept].
    destruct (place_room_total _ _ _ _ st Hpre Hwp) as (st' & Hplace).
    exists st'. split; [assumption|]. split.
    + eapply place_room_step; [|exact Hwp|exact Hplace]. lia.
    + eapply first_room_kept_place; [|exact Hwp|exact Hkept|exact Hplace]. lia.
  - split.
    + unfold well_placed. cbn [dungeon rooms trace set_slice width height d0].
      repeat split; auto using inner_in_bounds.
    + unfold first_room_kept. cbn [rooms player dungeon]. split; [eauto|].
      split; [reflexivity|]. intros c Hc.
      rewrite is_floor_set_slice. apply orb_true_iff. left.
      apply (in_inner map_width map_height r1 c Hr1). exact Hc.
  - exists s, rest. auto.
Qed.

(** ** A single room of fixed size *)

Lemma first_room_4_20 g :
  first_room 4 4 20 20 g
  = new_room (draws g (S (S (pos g))) mod 16) (draws g (S (S (S (pos g)))) mod 16) 4 4.
Proof.
  unfold first_room. change (4 - 4 + 1) with 1. rewrite !Z.mod_1_r.
  change (4 + 0) with 4. change (20 - 4 - 1 - 0 + 1) with 16.
  rewrite !Z.add_0_l. reflexivity.
Qed.

Lemma center_4 x y : 0 <= x -> 0 <= y -> center (new_room x y 4 4) = (x + 2, y + 2).
Proof.
  intros Hx Hy. unfold center, new_room, int_half; cbn [x1 x2 y1 y2].
  rewrite !Z.quot_div_nonneg by lia.
  replace (x + (x + 4)) with ((x + 2) * 2) by lia.
  replace (y + (y + 4)) with ((y + 2) * 2) by lia.
  now rewrite !Z.div_mul by lia.
Qed.

(** C7.  For every sequence of draws,
    [generate_dungeon(1, 4, 4, 20, 20, player)] completes with exactly one
    room, of width and height 4 and inside the 20 x 20 map; the player is
    at the centre [(x + 2, y + 2)] of the room; the only tile assignment is
    the slice of the room interior, so that the floor is that interior and
    no tunnel cell is carved (nor a tunnel coin drawn: four draws in
    all). *)
Theorem single_room_scenario (pl : Entity) (g : RNG) :
  exists (x y : Z) (s : gen_state),
    0 <= x <= 15 /\ 0 <= y <= 15 /\
    generate_dungeon 1 4 4 20 20 pl g = Ok s /\
    rooms s = [new_room x y 4 4] /\
    x2 (new_room x y 4 4) - x1 (new_room x y 4 4) = 4 /\
    y2 (new_room x y 4 4) - y1 (new_room x y 4 4) = 4 /\
    room_in_map 20 20 (new_room x y 4 4) /\
    center (new_room x y 4 4) = (x + 2, y + 2) /\
    player s = {| ent_x := x + 2; ent_y := y + 2 |} /\
    trace s = [WriteSlice (inner (new_room x y 4 4))] /\
    (forall c, is_floor (dungeon s) c = true <-> in_interior (new_room x y 4 4) c) /\
    rng s = {| draws := draws g; pos := S (S (S (S (pos g)))) |}.
Proof.
  set (x := draws g (S (S (pos g))) mod 16).
  set (y := draws g (S (S (S (pos g)))) mod 16).
  assert (Hx : 0 <= x <= 15)
    by (pose proof (Z.mod_pos_bound (draws g (S (S (pos g)))) 16 ltac:(lia)); lia).
  assert (Hy : 0 <= y <= 15)
    by (pose proof (Z.mod_pos_bound (draws g (S (S (S (pos g))))) 16 ltac:(lia)); lia).
  assert (Hroom : room_in_map 20 20 (new_room x y 4 4))
    by (unfold room_in_map, new_room; cbn [x1 x2 y1 y2]; lia).
  assert (Hcenter : center (new_room x y 4 4) = (x + 2, y + 2))
    by (apply center_4; lia).
  exists x, y.
  eexists. split; [exact Hx|]. split; [exact Hy|]. split.
  { unfold generate_dungeon, new_GameMap.
    change (Z.to_nat 1) with 1%nat. cbn [Z.ltb Z.compare orb bind repeat_rooms].
    rewrite first_attempt_accepted by (cbn; lia).
    cbn [bind width height app]. rewrite first_room_4_20. fold x y. reflexivity. }
  cbn [rooms player trace dungeon rng].
  split; [reflexivity|].
  split; [cbn [new_room x1 x2]; lia|].
  split; [cbn [new_room y1 y2]; lia|].
  split; [exact Hroom|].
  split; [exact Hcenter|].
  split; [unfold at_center; now rewrite Hcenter|].
  split; [reflexivity|].
  split; [|reflexivity].
  intros c. rewrite is_floor_set_slice. cbn [width height].
  rewrite orb_true_iff, (in_inner 20 20 _ c Hroom).
  unfold is_floor, in_interior; cbn [tiles Tile_eqb].
  split; [intros [H|H]; [exact H|discriminate]|now left].
Qed.

(** ** The sample run *)

Lemma sample_run :
  generate_dungeon 4 3 5 20 20 sample_player sample_rng = Ok sample_state.
Proof. vm_compute. reflexivity. Qed.

Lemma accepted_rooms_do_not_overlap_witness :
  generate_dungeon 4 3 5 20 20 sample_player sample_rng = Ok sample_state /\
  rooms sample_state = sample_rooms /\
  non_overlapping (rooms sample_state).
Proof.
  split; [exact sample_run|]. split; [vm_compute; reflexivity|].
  exact (accepted_rooms_do_not_overlap 4 3 5 20 20 sample_player sample_rng
           sample_state sample_run).
Defined.

Lemma carved_floor_is_connected_witness :
  0 <= 3 /\
  generate_dungeon 4 3 5 20 20 sample_player sample_rng = Ok sample_state /\
  rooms sample_state = new_room 3 4 3 3 :: [new_room 12 11 4 5; new_room 0 0 5 3] /\
  (forall c, is_floor (dungeon sample_state) c = true ->
             is_floor (dungeon sample_state) (center (new_room 3 4 3 3)) = true /\
             connected (dungeon sample_state) (center (new_room 3 4 3 3)) c) /\
  (forall r, In r (rooms sample_state) ->
             connected (dungeon sample_state) (center (new_room 3 4 3 3)) (center r)).
Proof.
  assert (Hrooms : rooms sample_state
                   = new_room 3 4 3 3 :: [new_room 12 11 4 5; new_room 0 0 5 3])
    by (vm_compute; reflexivity).
  split; [lia|]. split; [exact sample_run|]. split; [exact Hrooms|].
  exact (carved_floor_is_connected 4 3 5 20 20 sample_player sample_rng sample_state
           (new_room 3 4 3 3) [new_room 12 11 4 5; new_room 0 0 5 3]
           ltac:(lia) sample_run Hrooms).
Defined.

Lemma generation_stays_in_bounds_witness :
  size_precondition 3 5 20 20 /\
  exists s,
    generate_dungeon 4 3 5 20 20 sample_player sample_rng = Ok s /\
    Forall (write_in_bounds 20 20) (trace s) /\
    Forall (room_in_map 20 20) (rooms s).
Proof.
  assert (Hpre : size_precondition 3 5 20 20) by (unfold size_precondition; lia).
  split; [exact Hpre|].
  exact (generation_stays_in_bounds 4 3 5 20 20 sample_player sample_rng Hpre).
Defined.

Lemma first_attempt_always_places_a_room_witness :
  1 <= 4 /\ size_precondition 3 5 20 20 /\
  first_room 3 5 20 20 sample_rng = new_room 3 4 3 3 /\
  exists s rest,
    generate_dungeon 4 3 5 20 20 sample_player sample_rng = Ok s /\
    rooms s = first_room 3 5 20 20 sample_rng :: rest /\
    player s = at_center (first_room 3 5 20 20 sample_rng) /\
    forall c, in_interior (first_room 3 5 20 20 sample_rng) c ->
              is_floor (dungeon s) c = true.
Proof.
  assert (Hpre : size_precondition 3 5 20 20) by (unfold size_precondition; lia).
  split; [lia|]. split; [exact Hpre|]. split; [vm_compute; reflexivity|].
  exact (first_attempt_always_places_a_room 4 3 5 20 20 sample_player sample_rng
           ltac:(lia) Hpre).
Defined.

End ProcgenProofs.

(** * Properties of the input handlers *)

Module InputProofs.
Import InputHandlers InputSpec.

Section Handlers.
Context {W : World} {C : Collaborators W}.

(** ** Failed actions *)

(** C3.  When [perform] raises [Impossible] with message [msg], leaving the
    engine as [en1], [handle_action] of any handler reports that no turn
    elapsed and returns [en1] with the single message [(msg, impossible)]
    appended: the active handler is the one of [en1], and neither the
    enemy turns nor the field of view are run (the result is the same
    whatever these two do). *)
Theorem impossible_action_takes_no_turn
  (self : Handler) (act : Action) (en en1 : Engine) (msg : string) :
  perform act en = Impossible msg en1 ->
  handle_action self (Some act) en = (false, add_message msg impossible en1) /\
  messages (snd (handle_action self (Some act) en))
  = messages en1 ++ [(msg, impossible)] /\
  event_handler (snd (handle_action self (Some act) en)) = event_handler en1 /\
  forall C' : Collaborators W,
    @perform W C' = @perform W C ->
    @handle_action W C' self (Some act) en = @handle_action W C self (Some act) en.
Proof.
  intros Hperform.
  assert (Hbase : EventHandler_handle_action (Some act) en
                  = (false, add_message msg impossible en1)).
  { unfold EventHandler_handle_action. now rewrite Hperform. }
  assert (Hall : handle_action self (Some act) en
                 = (false, add_message msg impossible en1)).
  { destruct self; cbn [handle_action]; unfold AskUser_handle_action;
      rewrite Hbase; reflexivity. }
  rewrite Hall. cbn [snd add_message messages event_handler].
  split; [reflexivity|]. split; [reflexivity|]. split; [reflexivity|].
  intros C' HC'.
  destruct self; cbn [handle_action];
    unfold AskUser_handle_action, EventHandler_handle_action;
    rewrite HC', Hperform; reflexivity.
Qed.

(** ** The history viewer *)

Lemma cursor_key_page_up : lookup KeySym.PAGEUP CURSOR_Y_KEYS = Some (-10).
Proof. reflexivity. Qed.

Lemma cursor_key_page_down : lookup KeySym.PAGEDOWN CURSOR_Y_KEYS = Some 10.
Proof. reflexivity. Qed.

(** C4, as the code has it.  For a cursor inside the log, page-up moves
    the cursor to [max 0 (cursor - 10)] and page-down to
    [min (log_length - 1) (cursor + 10)], except on the edge they move
    towards: page-up at 0 goes to the last message and page-down at the
    last message goes to 0, as up and down do. *)
Theorem page_keys_clamp_and_wrap_on_the_edge
  (log_length cursor modifiers : Z) (en : Engine) :
  0 <= cursor <= log_length - 1 ->
  ev_keydown (HistoryViewer log_length cursor)
    {| sym := KeySym.PAGEUP; mod_ := modifiers |} en
  = Ok (None,
        set_event_handler
          (HistoryViewer log_length
             (if cursor =? 0 then log_length - 1 else Z.max 0 (cursor - 10))) en)
  /\
  ev_keydown (HistoryViewer log_length cursor)
    {| sym := KeySym.PAGEDOWN; mod_ := modifiers |} en
  = Ok (None,
        set_event_handler
          (HistoryViewer log_length
             (if cursor =? log_length - 1 then 0
              else Z.min (log_length - 1) (cursor + 10))) en).
Proof.
  intros Hc. unfold ev_keydown, HistoryViewer_ev_keydown, history_cursor. cbn [sym].
  rewrite cursor_key_page_up, cursor_key_page_down.
  change (-10 <? 0) with true. change (-10 >? 0) with false.
  change (10 <? 0) with false. change (10 >? 0) with true. cbn [andb].
  split.
  - destruct (Z.eqb_spec cursor 0); [reflexivity|].
    do 4 f_equal. lia.
  - destruct (Z.eqb_spec cursor (log_length - 1)); [reflexivity|].
    do 4 f_equal. lia.
Qed.

(** Whatever the key, a cursor that stays in the viewer stays in the log,
    provided the log is not empty. *)
Lemma history_cursor_in_log log_length cursor key cursor' :
  1 <= log_length -> 0 <= cursor <= log_length - 1 ->
  history_cursor log_length cursor key = Some cursor' ->
  0 <= cursor' <= log_length - 1.
Proof.
  intros HL Hc. unfold history_cursor.
  destruct (lookup key CURSOR_Y_KEYS) as [adjust|].
  - destruct ((adjust <? 0) && (cursor =? 0)); [intros [= <-]; lia|].
    destruct ((adjust >? 0) && (cursor =? log_length - 1)); intros [= <-]; lia.
  - destruct (key =? KeySym.HOME); [intros [= <-]; lia|].
    destruct (key =? KeySym.END); [intros [= <-]; lia|discriminate].
Qed.

Ltac case_if :=
  match goal with |- context [if ?b then _ else _] => destruct b end.

Lemma navigation_stays_in_viewer log_length cursor event :
  navigation event ->
  exists cursor', history_cursor log_length cursor (sym event) = Some cursor'.
Proof.
  unfold navigation, navigation_keys, history_cursor. cbn [In].
  intros [<-|[<-|[<-|[<-|[<-|[<-|[]]]]]]].
  - change (lookup KeySym.UP CURSOR_Y_KEYS) with (Some (-1)).
    repeat case_if; eauto.
  - change (lookup KeySym.DOWN CURSOR_Y_KEYS) with (Some 1).
    repeat case_if; eauto.
  - rewrite cursor_key_page_up.
    repeat case_if; eauto.
  - rewrite cursor_key_page_down.
    repeat case_if; eauto.
  - change (lookup KeySym.HOME CURSOR_Y_KEYS) with (@None Z).
    rewrite Z.eqb_refl. eauto.
  - change (lookup KeySym.END CURSOR_Y_KEYS) with (@None Z).
    change (KeySym.END =? KeySym.HOME) with false. rewrite Z.eqb_refl. eauto.
Qed.

Lemma viewer_handles_navigation log_length cursor event en :
  1 <= log_length -> 0 <= cursor <= log_length - 1 -> navigation event ->
  exists cursor',
    0 <= cursor' <= log_length - 1 /\
    handle_events (HistoryViewer log_length cursor) event en
    = Ok (false, set_event_handler (HistoryViewer log_length cursor') en).
Proof.
  intros HL Hc Hnav.
  destruct (navigation_stays_in_viewer log_length cursor event Hnav) as (c' & Hc').
  exists c'. split; [eapply history_cursor_in_log; eassumption|].
  unfold handle_events, ev_keydown, HistoryViewer_ev_keydown. rewrite Hc'.
  reflexivity.
Qed.

(** C8, for a log that is not empty.  A viewer built on a log of
    [log_length >= 1] messages starts with its cursor on the last
    message, and after any sequence of navigation keys (up, down, page-up,
    page-down, home, end) the viewer is still active with
    [0 <= cursor <= log_length - 1]. *)
Theorem history_cursor_stays_in_the_log (en : Engine) (events : list KeyDown) :
  1 <= Z.of_nat (List.length (messages en)) ->
  Forall navigation events ->
  new_HistoryViewer en
  = HistoryViewer (Z.of_nat (List.length (messages en)))
      (Z.of_nat (List.length (messages en)) - 1) /\
  0 <= Z.of_nat (List.length (messages en)) - 1 /\
  exists cursor en',
    press_keys events (set_event_handler (new_HistoryViewer en) en) = Ok en' /\
    event_handler en' = HistoryViewer (Z.of_nat (List.length (messages en))) cursor /\
    0 <= cursor <= Z.of_nat (List.length (messages en)) - 1.
Proof.
  intros HL Hnav. split; [reflexivity|]. split; [lia|].
  unfold new_HistoryViewer.
  set (L := Z.of_nat (List.length (messages en))) in *.
  assert (Hgen : forall en0 c,
             event_handler en0 = HistoryViewer L c -> 0 <= c <= L - 1 ->
             exists cursor en',
               press_keys events en0 = Ok en' /\
               event_handler en' = HistoryViewer L cursor /\
               0 <= cursor <= L - 1).
  { induction Hnav as [|event rest Hev _ IH]; intros en0 c Hh Hc.
    - exists c, en0. cbn. auto.
    - destruct (viewer_handles_navigation L c event en0 HL Hc Hev)
        as (c' & Hc' & Hstep).
      cbn [press_keys]. rewrite Hh, Hstep. cbn [bind].
      apply (IH _ c'); [reflexivity|assumption]. }
  apply (Hgen _ (L - 1)); [reflexivity|lia].
Qed.

(** ** Inventory selection *)

Lemma inventory_handler_ev_keydown mode event en :
  ev_keydown (inventory_handler mode) event en
  = Ok (Inventory_ev_keydown mode event en).
Proof. destruct mode; reflexivity. Qed.

Lemma inventory_handler_handle_action mode en :
  handle_action (inventory_handler mode) None en = (false, en).
Proof. destruct mode; reflexivity. Qed.

(** C6.  In an inventory handler the selected index is the offset of the
    key from [a] (so [a] selects index 0).  For an index of [0..26]: when
    it is at least the size of the inventory, the key appends the
    "Invalid entry" message, gives no action, and the handler stays
    active; when it is below the size of the inventory, the result is
    that of the item-selection callback of the mode on the item at that
    index. *)
Theorem inventory_letter_selects_by_offset
  (mode : InventoryMode) (event : KeyDown) (en : Engine) :
  0 <= sym event - KeySym.a <= 26 ->
  (sym event = KeySym.a -> sym event - KeySym.a = 0) /\
  (Z.of_nat (List.length (items (player en))) <= sym event - KeySym.a ->
   ev_keydown (inventory_handler mode) event en
   = Ok (None, add_message "Invalid entry"%string invalid en) /\
   handle_events (inventory_handler mode) event en
   = Ok (false, add_message "Invalid entry"%string invalid en) /\
   messages (add_message "Invalid entry"%string invalid en)
   = messages en ++ [("Invalid entry"%string, invalid)] /\
   event_handler (add_message "Invalid entry"%string invalid en) = event_handler en) /\
  (sym event - KeySym.a < Z.of_nat (List.length (items (player en))) ->
   exists item,
     nth_error (items (player en)) (Z.to_nat (sym event - KeySym.a)) = Some item /\
     ev_keydown (inventory_handler mode) event en
     = Ok (on_item_selected mode item en)).
Proof.
  intros Hidx.
  assert (Hguard : (0 <=? sym event - KeySym.a) && (sym event - KeySym.a <=? 26) = true).
  { apply andb_true_iff. split; apply Z.leb_le; lia. }
  split; [lia|]. split.
  - intros Hbig.
    assert (Hnone : nth_error (items (player en)) (Z.to_nat (sym event - KeySym.a)) = None)
      by (apply nth_error_None; lia).
    assert (Hkey : Inventory_ev_keydown mode event en
                   = (None, add_message "Invalid entry"%string invalid en)).
    { unfold Inventory_ev_keydown. cbv zeta. now rewrite Hguard, Hnone. }
    split; [|split; [|split; reflexivity]].
    + now rewrite inventory_handler_ev_keydown, Hkey.
    + unfold handle_events. rewrite inventory_handler_ev_keydown, Hkey.
      cbn [bind]. now rewrite inventory_handler_handle_action.
  - intros Hsmall.
    destruct (nth_error (items (player en)) (Z.to_nat (sym event - KeySym.a)))
      as [item|] eqn:Hitem.
    + exists item. split; [reflexivity|].
      rewrite inventory_handler_ev_keydown. unfold Inventory_ev_keydown. cbv zeta.
      now rewrite Hguard, Hitem.
    + apply nth_error_None in Hitem. lia.
Qed.

End Handlers.

(** ** Runs in the sample world *)

(** C3 on a blocked move in the main game: one message, no turn, the main
    handler still active. *)
Lemma impossible_action_takes_no_turn_witness :
  @perform sample_world sample_collaborators (Bump 0 (-1))
    (sample_engine MainGameEventHandler welcome [])
  = Impossible "That way is blocked."%string
      (sample_engine MainGameEventHandler welcome []) /\
  @handle_action sample_world sample_collaborators MainGameEventHandler
    (Some (Bump 0 (-1))) (sample_engine MainGameEventHandler welcome [])
  = (false,
     sample_engine MainGameEventHandler
       (welcome ++ [("That way is blocked."%string, impossible)]) []).
Proof.
  split; [reflexivity|].
  exact (proj1 (@impossible_action_takes_no_turn sample_world sample_collaborators
                  MainGameEventHandler (Bump 0 (-1))
                  (sample_engine MainGameEventHandler welcome [])
                  (sample_engine MainGameEventHandler welcome [])
                  "That way is blocked."%string eq_refl)).
Defined.

(** C4 as stated fails: page-down on the last of three messages moves the
    cursor to 0, not to [min (3 - 1) (2 + 10) = 2]; page-up on the first
    moves it to 2, not to [max 0 (0 - 10) = 0]. *)
Lemma page_keys_wrap_on_the_edge_counterexample :
  @ev_keydown sample_world sample_collaborators (HistoryViewer 3 2)
    {| sym := KeySym.PAGEDOWN; mod_ := Modifier.NONE |}
    (sample_engine (HistoryViewer 3 2) welcome [])
  = Ok (None, sample_engine (HistoryViewer 3 0) welcome []) /\
  0 <> Z.min (3 - 1) (2 + 10) /\
  @ev_keydown sample_world sample_collaborators (HistoryViewer 3 0)
    {| sym := KeySym.PAGEUP; mod_ := Modifier.NONE |}
    (sample_engine (HistoryViewer 3 0) welcome [])
  = Ok (None, sample_engine (HistoryViewer 3 2) welcome []) /\
  2 <> Z.max 0 (0 - 10).
Proof. repeat split; (reflexivity || discriminate). Qed.

Lemma page_keys_clamp_and_wrap_on_the_edge_witness :
  0 <= 5 <= 20 - 1 /\
  @ev_keydown sample_world sample_collaborators (HistoryViewer 20 5)
    {| sym := KeySym.PAGEDOWN; mod_ := Modifier.NONE |}
    (sample_engine (HistoryViewer 20 5) welcome [])
  = Ok (None, sample_engine (HistoryViewer 20 15) welcome []).
Proof.
  split; [lia|].
  exact (proj2 (@page_keys_clamp_and_wrap_on_the_edge sample_world sample_collaborators
                  20 5 Modifier.NONE (sample_engine (HistoryViewer 20 5) welcome [])
                  ltac:(lia))).
Defined.

(** C5 on the code: the three tests mask [event.mod] with key symbols
    instead of modifier flags.  With alt alone held, the right arrow moves
    the cursor from (10, 10) to (11, 10), not to (30, 10); of the single
    modifiers only left shift has its documented factor. *)
Theorem modifier_tests_mask_with_key_symbols :
  held Modifier.ALT {| sym := KeySym.RIGHT; mod_ := Modifier.LALT |} = true /\
  @ev_keydown sample_world sample_collaborators LookHandler
    {| sym := KeySym.RIGHT; mod_ := Modifier.LALT |}
    (sample_engine LookHandler welcome [])
  = Ok (None, set_mouse_location (11, 10) (sample_engine LookHandler welcome [])) /\
  speed_modifier {| sym := KeySym.RIGHT; mod_ := Modifier.LSHIFT |} = 5 /\
  speed_modifier {| sym := KeySym.RIGHT; mod_ := Modifier.RSHIFT |} = 20 /\
  speed_modifier {| sym := KeySym.RIGHT; mod_ := Modifier.LCTRL |} = 1000 /\
  speed_modifier {| sym := KeySym.RIGHT; mod_ := Modifier.RCTRL |} = 1000 /\
  speed_modifier {| sym := KeySym.RIGHT; mod_ := Modifier.LALT |} = 1 /\
  speed_modifier {| sym := KeySym.RIGHT; mod_ := Modifier.RALT |} = 1.
Proof. repeat split; reflexivity. Qed.

Lemma inventory_letter_selects_by_offset_witness :
  0 <= KeySym.b - KeySym.a <= 26 /\
  @ev_keydown sample_world sample_collaborators InventoryDropHandler
    {| sym := KeySym.b; mod_ := Modifier.NONE |}
    (sample_engine InventoryDropHandler welcome ["potion"; "scroll"]%string)
  = Ok (Some (DropIt "scroll"%string),
        sample_engine InventoryDropHandler welcome ["potion"; "scroll"]%string) /\
  @ev_keydown sample_world sample_collaborators InventoryDropHandler
    {| sym := KeySym.b; mod_ := Modifier.NONE |}
    (sample_engine InventoryDropHandler welcome ["potion"]%string)
  = Ok (None,
        sample_engine InventoryDropHandler
          (welcome ++ [("Invalid entry"%string, invalid)]) ["potion"]%string).
Proof.
  split; [unfold KeySym.b, KeySym.a; lia|]. split.
  - destruct (proj2 (proj2 (@inventory_letter_selects_by_offset
                sample_world sample_collaborators Drop
                {| sym := KeySym.b; mod_ := Modifier.NONE |}
                (sample_engine InventoryDropHandler welcome ["potion"; "scroll"]%string)
                ltac:(cbn; lia))) ltac:(cbn; lia)) as (item & Hitem & Hkey).
    injection Hitem as <-. exact Hkey.
  - exact (proj1 (proj1 (proj2 (@inventory_letter_selects_by_offset
                sample_world sample_collaborators Drop
                {| sym := KeySym.b; mod_ := Modifier.NONE |}
                (sample_engine InventoryDropHandler welcome ["potion"]%string)
                ltac:(cbn; lia))) ltac:(cbn; lia))).
Defined.

(** C8 as stated fails on an empty log: the cursor starts at -1. *)
Lemma history_viewer_on_an_empty_log_counterexample :
  @new_HistoryViewer sample_world (sample_engine MainGameEventHandler [] [])
  = HistoryViewer 0 (-1) /\
  ~ (0 <= -1 <= 0 - 1).
Proof. split; [reflexivity|lia]. Qed.

Lemma history_cursor_stays_in_the_log_witness :
  1 <= Z.of_nat (List.length (messages (sample_engine MainGameEventHandler welcome []))) /\
  Forall navigation
    [ {| sym := KeySym.UP; mod_ := Modifier.NONE |};
      {| sym := KeySym.PAGEDOWN; mod_ := Modifier.NONE |};
      {| sym := KeySym.DOWN; mod_ := Modifier.NONE |} ] /\
  exists cursor en',
    @press_keys sample_world sample_collaborators
      [ {| sym := KeySym.UP; mod_ := Modifier.NONE |};
        {| sym := KeySym.PAGEDOWN; mod_ := Modifier.NONE |};
        {| sym := KeySym.DOWN; mod_ := Modifier.NONE |} ]
      (set_event_handler
         (new_HistoryViewer (sample_engine MainGameEventHandler welcome []))
         (sample_engine MainGameEventHandler welcome []))
    = Ok en' /\
    event_handler en' = HistoryViewer 3 cursor /\ 0 <= cursor <= 3 - 1.
Proof.
  assert (Hnav : Forall navigation
    [ {| sym := KeySym.UP; mod_ := Modifier.NONE |};
      {| sym := KeySym.PAGEDOWN; mod_ := Modifier.NONE |};
      {| sym := KeySym.DOWN; mod_ := Modifier.NONE |} ]).
  { repeat constructor; unfold navigation, navigation_keys; cbn [sym In]; tauto. }
  split; [cbn; lia|]. split; [exact Hnav|].
  exact (proj2 (proj2 (@history_cursor_stays_in_the_log sample_world sample_collaborators
                  (sample_engine MainGameEventHandler welcome []) _
                  ltac:(cbn; lia) Hnav))).
Defined.

End InputProofs.

(** * Further properties of the dungeon generator *)

Module ProcgenExtra.
Import Procgen ProcgenSpec ProcgenPaths ProcgenProofs.

(** ** Rooms *)

(** X1.  For two rooms with ordered bounds, [intersects] holds exactly
    when the closed rectangles share a cell. *)
Theorem intersects_iff_shared_cell (a b : RectangularRoom) :
  ordered_bounds a -> ordered_bounds b ->
  (intersects a b = true <-> exists c, in_rectangle a c /\ in_rectangle b c).
Proof.
  intros [Hax Hay] [Hbx Hby]. split.
  - unfold intersects. rewrite !Z.geb_leb, !andb_true_iff, !Z.leb_le.
    intros [[[H1 H2] H3] H4].
    exists (Z.max (x1 a) (x1 b), Z.max (y1 a) (y1 b)).
    unfold in_rectangle; cbn [fst snd]. lia.
  - intros (c & Ha & Hb). exact (intersects_shared_cell a b c Ha Hb).
Qed.

Lemma intersects_iff_shared_cell_witness :
  ordered_bounds (new_room 0 0 4 4) /\ ordered_bounds (new_room 4 2 3 3) /\
  intersects (new_room 0 0 4 4) (new_room 4 2 3 3) = true /\
  exists c, in_rectangle (new_room 0 0 4 4) c /\ in_rectangle (new_room 4 2 3 3) c.
Proof.
  assert (Ha : ordered_bounds (new_room 0 0 4 4)) by (unfold ordered_bounds; cbn; lia).
  assert (Hb : ordered_bounds (new_room 4 2 3 3)) by (unfold ordered_bounds; cbn; lia).
  split; [exact Ha|]. split; [exact Hb|]. split; [reflexivity|].
  exact (proj1 (intersects_iff_shared_cell _ _ Ha Hb) eq_refl).
Defined.

(** X2.  In a room inside the map with sides of at least 2, carving the
    interior makes the centre floor; with a side of at most 1 the interior
    slice is empty and carving it changes no tile. *)
Theorem center_is_carved_unless_degenerate (d : GameMap) (r : RectangularRoom) :
  room_in_map (width d) (height d) r ->
  (x1 r + 2 <= x2 r -> y1 r + 2 <= y2 r ->
   is_floor (set_slice d (inner r) floor) (center r) = true) /\
  (x2 r <= x1 r + 1 \/ y2 r <= y1 r + 1 ->
   forall c, is_floor (set_slice d (inner r) floor) c = is_floor d c).
Proof.
  intros Hr. split.
  - intros Hx Hy. rewrite is_floor_set_slice. apply orb_true_iff. left.
    apply (in_inner _ _ r (center r) Hr).
    destruct Hr as (Hx0 & _ & _ & Hy0 & _ & _). unfold center; cbn [fst snd].
    pose proof (int_half_inner (x1 r) (x2 r) Hx0 Hx).
    pose proof (int_half_inner (y1 r) (y2 r) Hy0 Hy). lia.
  - intros Hthin c. rewrite is_floor_set_slice.
    destruct (in_slice (width d) (fst (inner r)) (fst c)
              && in_slice (height d) (snd (inner r)) (snd c)) eqn:E; [|reflexivity].
    apply (in_inner _ _ r c Hr) in E. lia.
Qed.

Lemma center_is_carved_unless_degenerate_witness :
  room_in_map 20 20 (new_room 3 4 3 3) /\
  is_floor (set_slice {| width := 20; height := 20; tiles := fun _ _ => wall |}
              (inner (new_room 3 4 3 3)) floor) (center (new_room 3 4 3 3)) = true.
Proof.
  assert (Hr : room_in_map 20 20 (new_room 3 4 3 3))
    by (unfold room_in_map; cbn; lia).
  split; [exact Hr|].
  exact (proj1 (center_is_carved_unless_degenerate
                  {| width := 20; height := 20; tiles := fun _ _ => wall |}
                  (new_room 3 4 3 3) Hr) ltac:(cbn; lia) ltac:(cbn; lia)).
Defined.

(** ** Tunnels *)

Lemma bresenham_horizontal_cells xa xb y0 :
  bresenham (xa, y0) (xb, y0)
  = (xa, y0) :: run xa y0 (Z.sgn (xb - xa)) 0 (Z.to_nat (Z.abs (xb - xa))).
Proof.
  unfold bresenham. rewrite Z.eqb_refl, andb_true_r.
  destruct (Z.eqb_spec xa xb) as [->|Hne].
  - rewrite Z.sub_diag. reflexivity.
  - f_equal. rewrite (line_walk_along_x (Z.to_nat (Z.abs (xb - xa))) _ _ (Z.sgn (xb - xa))).
    + reflexivity.
    + lia.
    + unfold along_x, line_init;
        cbn [stepx stepy deltax deltay origx origy destx desty].
      destruct (Z.sgn_spec (xb - xa)) as [[? ->]|[[? ->]|[? ->]]];
        repeat split; try lia.
Qed.

Lemma bresenham_vertical_cells x0 ya yb :
  bresenham (x0, ya) (x0, yb)
  = (x0, ya) :: run x0 ya 0 (Z.sgn (yb - ya)) (Z.to_nat (Z.abs (yb - ya))).
Proof.
  unfold bresenham. rewrite Z.eqb_refl, andb_true_l.
  destruct (Z.eqb_spec ya yb) as [->|Hne].
  - rewrite Z.sub_diag. reflexivity.
  - f_equal. rewrite (line_walk_along_y (Z.to_nat (Z.abs (yb - ya))) _ _ (Z.sgn (yb - ya))).
    + reflexivity.
    + lia.
    + unfold along_y, line_init;
        cbn [stepx stepy deltax deltay origx origy destx desty].
      destruct (Z.sgn_spec (yb - ya)) as [[? ->]|[[? ->]|[? ->]]];
        repeat split; try lia.
Qed.

Lemma run_length ox oy sx sy k : List.length (run ox oy sx sy k) = k.
Proof. revert ox oy. induction k as [|k IH]; intros; cbn; [reflexivity|now rewrite IH]. Qed.

Lemma last_default_irrelevant {A} (l : list A) (a d d' : A) :
  last (a :: l) d = last (a :: l) d'.
Proof.
  revert a. induction l as [|b l IH]; intros a; [reflexivity|].
  change (last (b :: l) d = last (b :: l) d'). apply IH.
Qed.

Lemma run_last k : forall ox oy sx sy,
  last ((ox, oy) :: run ox oy sx sy k) (ox, oy)
  = (ox + Z.of_nat k * sx, oy + Z.of_nat k * sy).
Proof.
  induction k as [|k IH]; intros ox oy sx sy.
  - cbn. f_equal; lia.
  - cbn [run].
    change (last ((ox, oy) :: (ox + sx, oy + sy) :: run (ox + sx) (oy + sy) sx sy k)
              (ox, oy))
      with (last ((ox + sx, oy + sy) :: run (ox + sx) (oy + sy) sx sy k) (ox, oy)).
    rewrite (last_default_irrelevant _ _ (ox, oy) (ox + sx, oy + sy)), IH.
    f_equal; lia.
Qed.

Lemma run_linked k : forall ox oy sx sy,
  Z.abs sx + Z.abs sy <= 1 ->
  linked ((ox, oy) :: run ox oy sx sy k).
Proof.
  induction k as [|k IH]; intros ox oy sx sy Hs; [exact I|].
  cbn [run linked]. split; [|now apply IH].
  destruct (Z.eq_dec (Z.abs sx + Z.abs sy) 0) as [H0|H1].
  - left. f_equal; lia.
  - right. unfold adjacent; cbn [fst snd]. lia.
Qed.

Lemma last_app_cons {A} (l1 l2 : list A) (b d : A) :
  last (l1 ++ b :: l2) d = last (b :: l2) d.
Proof.
  induction l1 as [|a l1 IH]; [reflexivity|].
  rewrite <- IH. cbn [app]. destruct (l1 ++ b :: l2) eqn:E; [|reflexivity].
  destruct l1; discriminate.
Qed.

Lemma linked_app a l1 b l2 :
  linked (a :: l1) -> linked (b :: l2) -> last (a :: l1) a = b ->
  linked ((a :: l1) ++ b :: l2).
Proof.
  revert a. induction l1 as [|a' l1 IH]; intros a H1 H2 Hlast.
  - cbn in Hlast. subst b. cbn [app linked]. split; [now left|exact H2].
  - cbn [app]. destruct H1 as [Hstep H1]. split; [exact Hstep|].
    apply IH; try assumption.
    rewrite <- Hlast. change (last (a :: a' :: l1) a) with (last (a' :: l1) a).
    apply last_default_irrelevant.
Qed.

(** X3.  [tunnel_between] yields a path: it starts at the start point,
    ends at the end point, each cell is the next one or orthogonally
    adjacent to it, and it has [|dx| + |dy| + 2] cells (the corner twice);
    it takes exactly one draw from the random source. *)
Theorem tunnel_is_a_path (p q : Z * Z) (g : RNG) :
  hd_error (fst (tunnel_between p q g)) = Some p /\
  last (fst (tunnel_between p q g)) p = q /\
  linked (fst (tunnel_between p q g)) /\
  Z.of_nat (List.length (fst (tunnel_between p q g)))
  = Z.abs (fst q - fst p) + Z.abs (snd q - snd p) + 2 /\
  snd (tunnel_between p q g) = next_rng g.
Proof.
  destruct p as [xa ya], q as [xb yb].
  unfold tunnel_between, random_lt_half, rng_next. cbn [fst snd].
  destruct (Z.even (draws g (pos g))); cbn [fst snd].
  - rewrite bresenham_horizontal_cells, bresenham_vertical_cells.
    split; [reflexivity|]. split; [|split; [|split; [|reflexivity]]].
    + rewrite last_app_cons.
      rewrite (last_default_irrelevant _ _ (xa, ya) (xb, ya)), run_last.
      f_equal; [lia|]. destruct (Z.sgn_spec (yb - ya)) as [[? ->]|[[? ->]|[? ->]]]; lia.
    + apply linked_app.
      * apply run_linked. destruct (Z.sgn_spec (xb - xa)) as [[? ->]|[[? ->]|[? ->]]]; lia.
      * apply run_linked. destruct (Z.sgn_spec (yb - ya)) as [[? ->]|[[? ->]|[? ->]]]; lia.
      * rewrite run_last. f_equal; [|lia].
        destruct (Z.sgn_spec (xb - xa)) as [[? ->]|[[? ->]|[? ->]]]; lia.
    + rewrite length_app. cbn [List.length]. rewrite !run_length. lia.
  - rewrite bresenham_horizontal_cells, bresenham_vertical_cells.
    split; [reflexivity|]. split; [|split; [|split; [|reflexivity]]].
    + rewrite last_app_cons.
      rewrite (last_default_irrelevant _ _ (xa, ya) (xa, yb)), run_last.
      f_equal; [|lia]. destruct (Z.sgn_spec (xb - xa)) as [[? ->]|[[? ->]|[? ->]]]; lia.
    + apply linked_app.
      * apply run_linked. destruct (Z.sgn_spec (yb - ya)) as [[? ->]|[[? ->]|[? ->]]]; lia.
      * apply run_linked. destruct (Z.sgn_spec (xb - xa)) as [[? ->]|[[? ->]|[? ->]]]; lia.
      * rewrite run_last. f_equal; [lia|].
        destruct (Z.sgn_spec (yb - ya)) as [[? ->]|[[? ->]|[? ->]]]; lia.
    + rewrite length_app. cbn [List.length]. rewrite !run_length. lia.
Qed.

(** ** The placement loop *)

(** The room an attempt has appended is the one it drew. *)
Lemma place_room_appended lo hi s s' room :
  place_room lo hi s = Ok s' -> rooms s' = rooms s ++ [room] ->
  sized lo hi (width (dungeon s)) (height (dungeon s)) room.
Proof.
  intros Hplace Hrooms.
  destruct (place_room_inv _ _ _ _ Hplace)
    as (rw & rh & x & y & Hrw & Hrh & Hx & Hy & [(_ & _ & Hr & _)|(_ & Hr & _)]).
  - rewrite Hr in Hrooms. apply (f_equal (@List.length _)) in Hrooms.
    rewrite length_app in Hrooms. cbn in Hrooms. lia.
  - rewrite Hr in Hrooms. apply app_inj_tail in Hrooms as [_ <-].
    unfold sized, new_room; cbn [x1 x2 y1 y2]. lia.
Qed.

Lemma place_room_rooms lo hi s s' :
  place_room lo hi s = Ok s' ->
  rooms s' = rooms s \/ exists room, rooms s' = rooms s ++ [room].
Proof.
  intros Hplace.
  destruct (place_room_inv _ _ _ _ Hplace)
    as (rw & rh & x & y & _ & _ & _ & _ & [(_ & _ & Hr & _)|(_ & Hr & _)]); eauto.
Qed.

Lemma place_room_dimensions lo hi s s' :
  place_room lo hi s = Ok s' ->
  width (dungeon s') = width (dungeon s) /\ height (dungeon s') = height (dungeon s).
Proof.
  intros Hplace.
  destruct (place_room_inv _ _ _ _ Hplace)
    as (rw & rh & x & y & _ & _ & _ & _ & [(_ & -> & _)|(_ & _ & Hcase)]);
    [auto|].
  destruct (rooms s) as [|r0 rest].
  - destruct Hcase as (-> & _). auto.
  - destruct Hcase as (_ & g4 & Hfold). revert Hfold.
    generalize (trace s ++ [WriteSlice (inner (new_room x y rw rh))]).
    generalize (fst (tunnel_between (center (last rest r0))
                       (center (new_room x y rw rh)) g4)).
    assert (Hgen : forall cells d tr,
               fold_left carve_cell cells (Ok (d, tr)) = Ok (dungeon s', trace s') ->
               width (dungeon s') = width d /\ height (dungeon s') = height d).
    { induction cells as [|c cells IH]; intros d tr Hfold.
      - cbn in Hfold. injection Hfold as <- _. auto.
      - cbn [fold_left] in Hfold. unfold carve_cell at 2 in Hfold. cbn [bind] in Hfold.
        unfold set_tile in Hfold.
        destruct (norm_index (width d) (fst c)) as [i|e]; cbn [bind] in Hfold.
        + destruct (norm_index (height d) (snd c)) as [j|e]; cbn [bind] in Hfold.
          * apply IH in Hfold. exact Hfold.
          * clear IH. exfalso. induction cells; cbn in Hfold; [discriminate|auto].
        + clear IH. exfalso. induction cells; cbn in Hfold; [discriminate|auto]. }
    intros cells tr Hfold. apply Hgen in Hfold. exact Hfold.
Qed.

(** X4.  Whatever the parameters and the draws, every room accepted by a
    completed [generate_dungeon] has width and height within
    [room_min_size .. room_max_size] and its rectangle lies within
    [0 .. map_width - 1] x [0 .. map_height - 1]. *)
Theorem accepted_rooms_have_the_requested_size
  (max_rooms room_min_size room_max_size map_width map_height : Z)
  (pl : Entity) (g : RNG) (s : gen_state) :
  generate_dungeon max_rooms room_min_size room_max_size map_width map_height pl g
  = Ok s ->
  Forall (sized room_min_size room_max_size map_width map_height) (rooms s).
Proof.
  intros Hgen. apply generate_dungeon_inv in Hgen as (_ & _ & Hrun).
  assert (Hinv : (width (dungeon s) = map_width /\ height (dungeon s) = map_height) /\
                 Forall (sized room_min_size room_max_size map_width map_height)
                   (rooms s)).
  { eapply (repeat_rooms_inv
              (fun st => (width (dungeon st) = map_width /\
                          height (dungeon st) = map_height) /\
                         Forall (sized room_min_size room_max_size map_width map_height)
                           (rooms st))); [| |exact Hrun].
    - intros st st' [[Hw Hh] Hrooms] Hplace.
      destruct (place_room_dimensions _ _ _ _ Hplace) as [Hw' Hh'].
      split; [split; congruence|].
      destruct (place_room_rooms _ _ _ _ Hplace) as [->|(room & Hr)]; [assumption|].
      rewrite Hr. apply Forall_app. split; [assumption|].
      constructor; [|constructor].
      rewrite <- Hw, <- Hh. eapply place_room_appended; eassumption.
    - cbn. auto. }
  exact (proj2 Hinv).
Qed.

Lemma accepted_rooms_have_the_requested_size_witness :
  generate_dungeon 4 3 5 20 20 sample_player sample_rng = Ok sample_state /\
  Forall (sized 3 5 20 20) (rooms sample_state).
Proof.
  split; [exact sample_run|].
  exact (accepted_rooms_have_the_requested_size 4 3 5 20 20 sample_player sample_rng
           sample_state sample_run).
Defined.

Lemma repeat_rooms_count lo hi n : forall s s',
  repeat_rooms n lo hi s = Ok s' ->
  (List.length (rooms s') <= List.length (rooms s) + n)%nat.
Proof.
  induction n as [|n IH]; intros s s' Hrun; cbn in Hrun.
  - injection Hrun as <-. lia.
  - destruct (place_room lo hi s) as [s1|] eqn:E; cbn [bind] in Hrun; [|discriminate].
    apply IH in Hrun.
    destruct (place_room_rooms _ _ _ _ E) as [Hr|(room & Hr)]; rewrite Hr in Hrun.
    + lia.
    + rewrite length_app in Hrun. cbn in Hrun. lia.
Qed.

(** X5.  A completed [generate_dungeon] has accepted at most [max_rooms]
    rooms (none when [max_rooms <= 0]); when it has accepted none, the map
    is all wall and the player has not been moved. *)
Theorem at_most_max_rooms
  (max_rooms room_min_size room_max_size map_width map_height : Z)
  (pl : Entity) (g : RNG) (s : gen_state) :
  generate_dungeon max_rooms room_min_size room_max_size map_width map_height pl g
  = Ok s ->
  Z.of_nat (List.length (rooms s)) <= Z.max 0 max_rooms /\
  (rooms s = [] -> (forall c, is_floor (dungeon s) c = false) /\ player s = pl).
Proof.
  intros Hgen. apply generate_dungeon_inv in Hgen as (_ & _ & Hrun). split.
  - apply repeat_rooms_count in Hrun. cbn [rooms List.length] in Hrun. lia.
  - eapply (repeat_rooms_inv
              (fun st => rooms st = [] ->
                         (forall c, is_floor (dungeon st) c = false) /\ player st = pl));
      [| |exact Hrun].
    + intros st st' Hst Hplace Hempty.
      destruct (place_room_inv _ _ _ _ Hplace)
        as (rw & rh & x & y & _ & _ & _ & _ &
            [(_ & Hd & Hr & Hp & _)|(_ & Hr & _)]).
      * rewrite Hd, Hp. apply Hst. congruence.
      * rewrite Hr in Hempty. destruct (rooms st); discriminate.
    + intros _. cbn. auto.
Qed.

Lemma at_most_max_rooms_witness :
  generate_dungeon 4 3 5 20 20 sample_player sample_rng = Ok sample_state /\
  Z.of_nat (List.length (rooms sample_state)) <= Z.max 0 4.
Proof.
  split; [exact sample_run|].
  exact (proj1 (at_most_max_rooms 4 3 5 20 20 sample_player sample_rng
                  sample_state sample_run)).
Defined.

(** ** Parameters that cannot be served *)

Lemma randint_empty a b g : b < a -> randint a b g = Raise ValueError.
Proof. intros H. unfold randint. destruct (Z.ltb_spec b a); [reflexivity|lia]. Qed.

Lemma place_room_raises lo hi s :
  hi < lo \/ width (dungeon s) <= lo \/ height (dungeon s) <= lo ->
  place_room lo hi s = Raise ValueError.
Proof.
  intros Hbad. unfold place_room.
  destruct (Z.lt_ge_cases hi lo) as [Hlt|Hge].
  - now rewrite randint_empty.
  - destruct Hbad as [Hbad|Hbad]; [lia|].
    pose proof (Z.mod_pos_bound (draws (rng s) (pos (rng s))) (hi - lo + 1) ltac:(lia)).
    pose proof (Z.mod_pos_bound (draws (rng s) (S (pos (rng s)))) (hi - lo + 1)
                  ltac:(lia)).
    rewrite randint_ok by lia. cbn [bind draws pos].
    rewrite randint_ok by lia. cbn [bind draws pos].
    set (rw := lo + draws (rng s) (pos (rng s)) mod (hi - lo + 1)) in *.
    set (rh := lo + draws (rng s) (S (pos (rng s))) mod (hi - lo + 1)) in *.
    destruct (Z.lt_ge_cases (width (dungeon s) - rw - 1) 0) as [Hw|Hw].
    + now rewrite randint_empty.
    + rewrite randint_ok by lia. cbn [bind draws pos].
      rewrite randint_empty by lia. reflexivity.
Qed.

(** X6.  With at least one attempt to make, [generate_dungeon] raises
    [ValueError] whenever the size range is empty or the smallest room
    side is not smaller than the map width or height: the range of
    origins is then empty whatever size is drawn. *)
Theorem unservable_sizes_raise
  (max_rooms room_min_size room_max_size map_width map_height : Z)
  (pl : Entity) (g : RNG) :
  1 <= max_rooms ->
  room_max_size < room_min_size \/ map_width <= room_min_size
  \/ map_height <= room_min_size ->
  generate_dungeon max_rooms room_min_size room_max_size map_width map_height pl g
  = Raise ValueError.
Proof.
  intros Hmax Hbad. unfold generate_dungeon, new_GameMap.
  destruct ((map_width <? 0) || (map_height <? 0)); [reflexivity|]. cbn [bind].
  destruct (Z.to_nat max_rooms) as [|n] eqn:En; [lia|].
  cbn [repeat_rooms]. now rewrite place_room_raises.
Qed.

Lemma unservable_sizes_raise_witness :
  1 <= 30 /\ (10 < 6 \/ 8 <= 6 \/ 5 <= 6) /\
  generate_dungeon 30 6 10 8 5 sample_player sample_rng = Raise ValueError.
Proof.
  split; [lia|]. split; [lia|].
  exact (unservable_sizes_raise 30 6 10 8 5 sample_player sample_rng
           ltac:(lia) ltac:(lia)).
Defined.

(** ** The outer ring of the map *)

Lemma roomy_center w h r : roomy w h r -> off_border w h (center r).
Proof.
  intros (Hx0 & Hx & Hxw & Hy0 & Hy & Hyh). unfold off_border, center; cbn [fst snd].
  pose proof (int_half_inner (x1 r) (x2 r) Hx0 Hx).
  pose proof (int_half_inner (y1 r) (y2 r) Hy0 Hy). lia.
Qed.

Lemma roomy_interior w h r c : roomy w h r -> in_interior r c -> off_border w h c.
Proof. unfold roomy, in_interior, off_border. lia. Qed.

Lemma sized_roomy lo hi w h r : 2 <= lo -> sized lo hi w h r -> roomy w h r.
Proof. unfold sized, roomy. lia. Qed.

Lemma enclosed_place lo hi w h s s' :
  2 <= lo -> enclosed w h s -> place_room lo hi s = Ok s' -> enclosed w h s'.
Proof.
  intros Hlo (Hwp & Hrooms & Hfloor) Hplace.
  pose proof Hwp as (Hw & Hh & _).
  destruct (place_room_step lo hi w h s s' ltac:(lia) Hwp Hplace)
    as (Hwp' & [(Hr & Hd & _)|(room & _ & _ & Hr & Hcase)]).
  - unfold enclosed. rewrite Hr, Hd. auto.
  - assert (Hroom : roomy w h room).
    { apply (sized_roomy lo hi); [assumption|].
      rewrite <- Hw, <- Hh. eapply place_room_appended; eassumption. }
    split; [assumption|]. split.
    + rewrite Hr. apply Forall_app. split; [assumption|]. constructor; [assumption|constructor].
    + destruct (rooms s) as [|r0 rest] eqn:Er.
      * destruct Hcase as (_ & _ & Hfl). intros c Hc. apply Hfl in Hc.
        destruct Hc as [Hc|Hc]; [now apply (roomy_interior w h room)|now apply Hfloor].
      * destruct Hcase as (_ & g4 & _ & Hfl). intros c Hc. apply Hfl in Hc.
        destruct Hc as [Hc|[Hc|Hc]].
        -- apply tunnel_between_cells, on_tunnel_box in Hc.
           assert (Hlast : roomy w h (last rest r0)).
           { eapply Forall_forall; [exact Hrooms|apply last_in]. }
           pose proof (roomy_center w h _ Hlast) as [? ?].
           pose proof (roomy_center w h _ Hroom) as [? ?].
           unfold off_border. lia.
        -- now apply (roomy_interior w h room).
        -- now apply Hfloor.
Qed.

(** X7.  Under the documented precondition and with
    [room_min_size >= 2], the outer ring of the map stays wall: whatever
    the draws, [generate_dungeon] completes and every floor cell has
    [1 <= x <= map_width - 2] and [1 <= y <= map_height - 2]. *)
Theorem map_border_stays_wall
  (max_rooms room_min_size room_max_size map_width map_height : Z)
  (pl : Entity) (g : RNG) :
  size_precondition room_min_size room_max_size map_width map_height ->
  2 <= room_min_size ->
  exists s,
    generate_dungeon max_rooms room_min_size room_max_size map_width map_height pl g
    = Ok s /\
    forall c, is_floor (dungeon s) c = true -> off_border map_width map_height c.
Proof.
  intros Hpre Hlo. pose proof Hpre as (_ & Hlh & Hhw & Hhh).
  unfold generate_dungeon, new_GameMap.
  destruct (Z.ltb_spec map_width 0); [lia|].
  destruct (Z.ltb_spec map_height 0); [lia|]. cbn [orb bind].
  destruct (repeat_rooms_total (enclosed map_width map_height)
              room_min_size room_max_size) with
    (n := Z.to_nat max_rooms)
    (s := {| dungeon := {| width := map_width; height := map_height;
                           tiles := fun _ _ => wall |};
             rooms := []; player := pl; rng := g; trace := [] |})
    as (s & Hrun & (_ & _ & Hfloor)).
  - intros st Hst. pose proof Hst as (Hwp & _).
    destruct (place_room_total _ _ _ _ st Hpre Hwp) as (st' & Hplace).
    exists st'. split; [assumption|]. eapply enclosed_place; eassumption.
  - split; [apply initial_well_placed|]. split; [constructor|].
    intros c Hc. discriminate Hc.
  - exists s. auto.
Qed.

Lemma map_border_stays_wall_witness :
  size_precondition 3 5 20 20 /\ 2 <= 3 /\
  exists s,
    generate_dungeon 4 3 5 20 20 sample_player sample_rng = Ok s /\
    forall c, is_floor (dungeon s) c = true -> off_border 20 20 c.
Proof.
  assert (Hpre : size_precondition 3 5 20 20) by (unfold size_precondition; lia).
  split; [exact Hpre|]. split; [lia|].
  exact (map_border_stays_wall 4 3 5 20 20 sample_player sample_rng Hpre ltac:(lia)).
Defined.

(** ** The player *)

Lemma first_room_stays
  (max_rooms lo hi w h : Z) (pl : Entity) (g : RNG) :
  1 <= max_rooms -> size_precondition lo hi w h ->
  exists s,
    generate_dungeon max_rooms lo hi w h pl g = Ok s /\
    well_placed w h s /\ first_room_kept (first_room lo hi w h g) s.
Proof.
  intros Hmax Hpre. pose proof Hpre as (Hlo & Hlh & Hhw & Hhh).
  set (r1 := first_room lo hi w h g).
  assert (Hr1 : room_in_map w h r1) by (apply first_room_in_map; lia).
  unfold generate_dungeon, new_GameMap.
  destruct (Z.ltb_spec w 0); [lia|].
  destruct (Z.ltb_spec h 0); [lia|]. cbn [orb bind].
  destruct (Z.to_nat max_rooms) as [|n] eqn:En; [lia|].
  cbn [repeat_rooms]. rewrite first_attempt_accepted by (cbn; lia).
  cbn [bind width height app]. fold r1.
  set (d0 := {| width := w; height := h; tiles := fun _ _ => wall |}).
  destruct (repeat_rooms_total
              (fun st => well_placed w h st /\ first_room_kept r1 st) lo hi) with
    (n := n)
    (s := {| dungeon := set_slice d0 (inner r1) floor; rooms := [r1];
             player := at_center r1;
             rng := {| draws := draws g; pos := S (S (S (S (pos g)))) |};
             trace := [WriteSlice (inner r1)] |})
    as (s & Hrun & Hwp & Hkept).
  - intros st [Hwp Hkept].
    destruct (place_room_total _ _ _ _ st Hpre Hwp) as (st' & Hplace).
    exists st'. split; [assumption|]. split.
    + eapply place_room_step; [|exact Hwp|exact Hplace]. lia.
    + eapply first_room_kept_place; [|exact Hwp|exact Hkept|exact Hplace]. lia.
  - split.
    + unfold well_placed. cbn [dungeon rooms trace set_slice width height d0].
      repeat split; auto using inner_in_bounds.
    + unfold first_room_kept. cbn [rooms player dungeon]. split; [eauto|].
      split; [reflexivity|]. intros c Hc.
      rewrite is_floor_set_slice. apply orb_true_iff. left.
      apply (in_inner w h r1 c Hr1). exact Hc.
  - exists s. auto.
Qed.

Lemma first_room_sides lo hi w h g :
  lo <= hi ->
  lo <= x2 (first_room lo hi w h g) - x1 (first_room lo hi w h g) /\
  lo <= y2 (first_room lo hi w h g) - y1 (first_room lo hi w h g).
Proof.
  intros Hlh. unfold first_room, new_room; cbn [x1 x2 y1 y2].
  pose proof (Z.mod_pos_bound (draws g (pos g)) (hi - lo + 1) ltac:(lia)).
  pose proof (Z.mod_pos_bound (draws g (S (pos g))) (hi - lo + 1) ltac:(lia)).
  lia.
Qed.

(** X8.  Under the documented precondition, with [max_rooms >= 1] and
    [room_min_size >= 2], the player is left on a floor tile, off the
    border of the map, whatever the draws and wherever the player was. *)
Theorem player_stands_on_floor
  (max_rooms room_min_size room_max_size map_width map_height : Z)
  (pl : Entity) (g : RNG) :
  1 <= max_rooms ->
  size_precondition room_min_size room_max_size map_width map_height ->
  2 <= room_min_size ->
  exists s,
    generate_dungeon max_rooms room_min_size room_max_size map_width map_height pl g
    = Ok s /\
    is_floor (dungeon s) (ent_x (player s), ent_y (player s)) = true /\
    off_border map_width map_height (ent_x (player s), ent_y (player s)).
Proof.
  intros Hmax Hpre Hlo. pose proof Hpre as (_ & Hlh & Hhw & Hhh).
  destruct (first_room_stays max_rooms _ _ _ _ pl g Hmax Hpre)
    as (s & Hgen & _ & (_ & Hpl & Hfl)).
  set (r1 := first_room room_min_size room_max_size map_width map_height g) in *.
  assert (Hr1 : room_in_map map_width map_height r1)
    by (apply first_room_in_map; lia).
  assert (Hroomy : roomy map_width map_height r1).
  { pose proof (first_room_sides room_min_size room_max_size map_width map_height g Hlh)
      as [Hsx Hsy]. fold r1 in Hsx, Hsy.
    destruct Hr1 as (? & ? & ? & ? & ? & ?). unfold roomy. lia. }
  exists s. split; [exact Hgen|]. rewrite Hpl. unfold at_center; cbn [ent_x ent_y].
  rewrite <- surjective_pairing. split.
  - apply Hfl. destruct Hroomy as (Hx0 & Hx & _ & Hy0 & Hy & _).
    unfold in_interior, center; cbn [fst snd].
    pose proof (int_half_inner (x1 r1) (x2 r1) Hx0 Hx).
    pose proof (int_half_inner (y1 r1) (y2 r1) Hy0 Hy). lia.
  - now apply roomy_center.
Qed.

Lemma player_stands_on_floor_witness :
  1 <= 4 /\ size_precondition 3 5 20 20 /\ 2 <= 3 /\
  exists s,
    generate_dungeon 4 3 5 20 20 sample_player sample_rng = Ok s /\
    is_floor (dungeon s) (ent_x (player s), ent_y (player s)) = true /\
    off_border 20 20 (ent_x (player s), ent_y (player s)).
Proof.
  assert (Hpre : size_precondition 3 5 20 20) by (unfold size_precondition; lia).
  split; [lia|]. split; [exact Hpre|]. split; [lia|].
  exact (player_stands_on_floor 4 3 5 20 20 sample_player sample_rng
           ltac:(lia) Hpre ltac:(lia)).
Defined.

End ProcgenExtra.

(** * Further properties of the input handlers *)

Module InputExtra.
Import InputHandlers InputSpec InputEvents InputProofs.

Section Handlers.
Context {W : World} {C : Collaborators W}.

Ltac case_if :=
  match goal with |- context [if ?b then _ else _] => destruct b end.

(** ** Turns *)

(** X9.  [handle_action] reports a turn exactly when there was an action
    and [perform] completed.  It then runs the enemy turns and the field
    of view, in this order, and a handler of the ask-user family hands
    over to the main game handler; without an action the engine is
    unchanged. *)
Theorem turn_elapses_iff_action_performed
  (self : Handler) (action : option Action) (en : Engine) :
  (fst (handle_action self action en) = true <->
   exists act en1, action = Some act /\ perform act en = Performed en1) /\
  (forall act en1,
     action = Some act -> perform act en = Performed en1 ->
     snd (handle_action self action en)
     = if ask_user self
       then set_event_handler MainGameEventHandler
              (update_fov (handle_enemy_turns en1))
       else update_fov (handle_enemy_turns en1)) /\
  (action = None -> handle_action self action en = (false, en)).
Proof.
  assert (Hbase : forall act,
             EventHandler_handle_action (Some act) en
             = match perform act en with
               | Impossible msg en1 => (false, add_message msg impossible en1)
               | Performed en1 => (true, update_fov (handle_enemy_turns en1))
               end) by reflexivity.
  split; [|split].
  - split.
    + destruct action as [act|].
      * intros Hturn. destruct (perform act en) as [en1|msg en1] eqn:Hp.
        -- eauto.
        -- exfalso. revert Hturn.
           destruct self; cbn [handle_action]; unfold AskUser_handle_action;
             rewrite Hbase, Hp; discriminate.
      * destruct self; cbn; discriminate.
    + intros (act & en1 & Ha & Hp). subst action.
      destruct self; cbn [handle_action]; unfold AskUser_handle_action;
        rewrite Hbase, Hp; reflexivity.
  - intros act en1 -> Hp.
    destruct self; cbn [handle_action ask_user]; unfold AskUser_handle_action;
      rewrite Hbase, Hp; reflexivity.
  - intros ->. destruct self; reflexivity.
Qed.

(** ** Keys that close or do not close a menu *)

Lemma ask_user_cases self :
  ask_user self = true ->
  self = InventoryActivateHandler \/ self = InventoryDropHandler \/ self = LookHandler.
Proof. destruct self; cbn; intros; try discriminate; auto. Qed.

(** X10.  In the inventory menus and in the look handler, a key that is
    only a modifier (either shift, ctrl or alt) changes nothing: no
    action, no turn, the same handler and the same engine. *)
Theorem modifier_keys_leave_menus_open
  (self : Handler) (key modifiers : Z) (en : Engine) :
  ask_user self = true -> In key modifier_keys ->
  handle_events self {| sym := key; mod_ := modifiers |} en = Ok (false, en).
Proof.
  intros Hself Hkey. unfold modifier_keys in Hkey. cbn [In] in Hkey.
  destruct (ask_user_cases self Hself) as [-> | [-> | ->]];
    destruct Hkey as [<-|[<-|[<-|[<-|[<-|[<-|[]]]]]]]; reflexivity.
Qed.

(** X11.  Escape ends the program from the main game and from the game
    over screen only; in a menu, the look handler or the history viewer
    it returns to the main game with no action and no turn.  The quit
    event ends the program from every handler. *)
Theorem escape_closes_menus_and_quits_the_game
  (self : Handler) (modifiers : Z) (en : Engine) :
  handle_event self
    (KeyDownEvent {| sym := KeySym.ESCAPE; mod_ := modifiers |}) en
  = (match self with
     | MainGameEventHandler | GameOverEventHandler => Raise SystemExit
     | _ => Ok (false, set_event_handler MainGameEventHandler en)
     end) /\
  handle_event self QuitEvent en = Raise SystemExit.
Proof. split; destruct self; reflexivity. Qed.

(** X12.  Any mouse click, whatever the button and the tile, closes an
    inventory menu or the look handler and returns to the main game with
    no action and no turn; the other handlers ignore clicks. *)
Theorem any_click_closes_a_menu
  (self : Handler) (event : MouseButtonDown) (en : Engine) :
  handle_event self (MouseButtonDownEvent event) en
  = Ok (false,
        if ask_user self then set_event_handler MainGameEventHandler en else en).
Proof.
  destruct self; try reflexivity.
  unfold handle_event, dispatch, ev_mousebuttondown, SelectIndex_ev_mousebuttondown.
  cbn [ask_user]. repeat case_if; reflexivity.
Qed.

(** ** The cursor of a tile selection *)

Lemma lookup_in {V : Type} (key : Z) (dict : list (Z * V)) (v : V) :
  lookup key dict = Some v -> In (key, v) dict.
Proof.
  induction dict as [|[k v'] dict IH]; cbn [lookup]; [discriminate|].
  destruct (Z.eqb_spec key k) as [->|_].
  - intros [= ->]. now left.
  - intros H. right. auto.
Qed.

Lemma move_keys_unit_step key d : lookup key MOVE_KEYS = Some d -> unit_step d.
Proof.
  intros H. apply lookup_in in H. unfold MOVE_KEYS in H. cbn [In] in H.
  unfold unit_step.
  repeat (destruct H as [H|H];
          [injection H as _ <-; cbn [fst snd]; repeat split; (lia || discriminate)|]).
  destruct H.
Qed.

Lemma look_move_key event en d :
  lookup (sym event) MOVE_KEYS = Some d ->
  handle_events LookHandler event en
  = Ok (false,
        set_mouse_location
          (Z.max 0 (Z.min (fst (mouse_location en) + fst d * speed_modifier event)
                      (map_width en - 1)),
           Z.max 0 (Z.min (snd (mouse_location en) + snd d * speed_modifier event)
                      (map_height en - 1))) en).
Proof.
  intros Hd. unfold handle_events, ev_keydown, SelectIndex_ev_keydown. cbv zeta.
  rewrite Hd. destruct d as [dx dy]. destruct (mouse_location en) as [cx cy].
  reflexivity.
Qed.

(** X13.  On a map of at least one column and one row, a movement key in
    the look handler leaves the cursor inside the map, wherever it was and
    whatever modifiers are held; it gives no action, takes no turn and
    keeps the handler. *)
Theorem movement_keeps_cursor_in_map (event : KeyDown) (en : Engine) :
  1 <= map_width en -> 1 <= map_height en ->
  lookup (sym event) MOVE_KEYS <> None ->
  exists c,
    handle_events LookHandler event en = Ok (false, set_mouse_location c en) /\
    in_bounds en c = true.
Proof.
  intros Hw Hh Hkey.
  destruct (lookup (sym event) MOVE_KEYS) as [d|] eqn:Hd; [|contradiction].
  eexists. split; [apply look_move_key; exact Hd|].
  unfold in_bounds; cbn [fst snd].
  rewrite !andb_true_iff, !Z.leb_le, !Z.ltb_lt. lia.
Qed.

Lemma speed_modifier_none key : speed_modifier {| sym := key; mod_ := 0 |} = 1.
Proof. reflexivity. Qed.

(** X14.  With no modifier held, a movement key moves the cursor by the
    one step of the key when the target is inside the map, and that step
    is never the null step. *)
Theorem plain_movement_is_one_step (key : Z) (d : Z * Z) (en : Engine) :
  lookup key MOVE_KEYS = Some d ->
  in_bounds en (fst (mouse_location en) + fst d, snd (mouse_location en) + snd d)
  = true ->
  handle_events LookHandler {| sym := key; mod_ := Modifier.NONE |} en
  = Ok (false,
        set_mouse_location
          (fst (mouse_location en) + fst d, snd (mouse_location en) + snd d) en) /\
  unit_step d.
Proof.
  intros Hd Hin. split; [|eapply move_keys_unit_step; exact Hd].
  rewrite (look_move_key _ en d) by exact Hd.
  change (speed_modifier {| sym := key; mod_ := Modifier.NONE |}) with 1.
  unfold in_bounds in Hin; cbn [fst snd] in Hin.
  rewrite !andb_true_iff, !Z.leb_le, !Z.ltb_lt in Hin.
  do 3 f_equal; f_equal; lia.
Qed.

Lemma cursor_event_step event en :
  1 <= map_width en -> 1 <= map_height en ->
  in_bounds en (mouse_location en) = true ->
  cursor_event event ->
  exists c,
    handle_event LookHandler event en = Ok (false, set_mouse_location c en) /\
    in_bounds en c = true.
Proof.
  intros Hw Hh Hin Hev. destruct event as [e|e| |]; cbn in Hev; try contradiction.
  - exact (movement_keeps_cursor_in_map e en Hw Hh Hev).
  - unfold handle_event, dispatch, ev_mousemotion.
    destruct (in_bounds en (motion_tile e)) eqn:Ht.
    + exists (motion_tile e). split; [reflexivity|exact Ht].
    + exists (mouse_location en). split; [|exact Hin].
      cbn. destruct en; reflexivity.
Qed.

(** X15.  While the look handler is active, the cursor never leaves the
    map: from a cursor inside the map, after any sequence of movement
    keys (with any modifiers) and mouse motions (to any tile) the look
    handler is still active, the cursor is inside the map, and nothing
    else in the engine has changed. *)
Theorem look_cursor_never_leaves_the_map (events : list Event) (en : Engine) :
  event_handler en = LookHandler ->
  1 <= map_width en -> 1 <= map_height en ->
  in_bounds en (mouse_location en) = true ->
  Forall cursor_event events ->
  exists c,
    handle_all events en = Ok (set_mouse_location c en) /\
    in_bounds en c = true.
Proof.
  intros Hh Hw Hht Hin Hev. revert en Hh Hw Hht Hin.
  induction Hev as [|event rest Hevent _ IH]; intros en Hh Hw Hht Hin.
  - exists (mouse_location en). split; [|exact Hin]. cbn. destruct en; reflexivity.
  - destruct (cursor_event_step event en Hw Hht Hin Hevent) as (c & Hstep & Hc).
    cbn [handle_all]. rewrite Hh, Hstep. cbn [bind].
    destruct (IH (set_mouse_location c en)) as (c' & Hrest & Hc'); try assumption.
    exists c'. split; [|exact Hc']. rewrite Hrest. reflexivity.
Qed.

(** ** The history viewer *)

Lemma history_up log_length cursor :
  1 <= log_length -> 0 <= cursor <= log_length - 1 ->
  history_cursor log_length cursor KeySym.UP = Some ((cursor - 1) mod log_length).
Proof.
  intros HL Hc. unfold history_cursor.
  change (lookup KeySym.UP CURSOR_Y_KEYS) with (Some (-1)). cbv beta iota.
  change (-1 <? 0) with true. change (-1 >? 0) with false. cbn [andb].
  destruct (Z.eqb_spec cursor 0) as [->|Hne]; f_equal.
  - replace (0 - 1) with (log_length - 1 + (-1) * log_length) by lia.
    rewrite Z.mod_add, Z.mod_small by lia. reflexivity.
  - rewrite Z.mod_small by lia. lia.
Qed.

Lemma history_down log_length cursor :
  1 <= log_length -> 0 <= cursor <= log_length - 1 ->
  history_cursor log_length cursor KeySym.DOWN = Some ((cursor + 1) mod log_length).
Proof.
  intros HL Hc. unfold history_cursor.
  change (lookup KeySym.DOWN CURSOR_Y_KEYS) with (Some 1). cbv beta iota.
  change (1 <? 0) with false. change (1 >? 0) with true. cbn [andb].
  destruct (Z.eqb_spec cursor (log_length - 1)) as [->|Hne]; f_equal.
  - replace (log_length - 1 + 1) with (0 + 1 * log_length) by lia.
    rewrite Z.mod_add, Z.mod_small by lia. reflexivity.
  - rewrite Z.mod_small by lia. lia.
Qed.

Lemma viewer_key log_length cursor cursor' key modifiers en :
  history_cursor log_length cursor key = Some cursor' ->
  handle_events (HistoryViewer log_length cursor) {| sym := key; mod_ := modifiers |} en
  = Ok (false, set_event_handler (HistoryViewer log_length cursor') en).
Proof.
  intros H. unfold handle_events, ev_keydown, HistoryViewer_ev_keydown. cbn [sym].
  now rewrite H.
Qed.

Lemma press_viewer_key log_length cursor cursor' key modifiers rest en :
  history_cursor log_length cursor key = Some cursor' ->
  press_keys ({| sym := key; mod_ := modifiers |} :: rest)
    (set_event_handler (HistoryViewer log_length cursor) en)
  = press_keys rest (set_event_handler (HistoryViewer log_length cursor') en).
Proof.
  intros H. cbn [press_keys event_handler set_event_handler].
  rewrite (viewer_key _ _ _ _ _ _ H). reflexivity.
Qed.

Lemma press_up_times (n : nat) log_length modifiers : forall cursor en,
  1 <= log_length -> 0 <= cursor <= log_length - 1 ->
  press_keys (repeat {| sym := KeySym.UP; mod_ := modifiers |} n)
    (set_event_handler (HistoryViewer log_length cursor) en)
  = Ok (set_event_handler
          (HistoryViewer log_length ((cursor - Z.of_nat n) mod log_length)) en).
Proof.
  induction n as [|n IH]; intros cursor en HL Hc.
  - cbn [repeat press_keys]. rewrite Z.sub_0_r, Z.mod_small by lia. reflexivity.
  - cbn [repeat].
    rewrite (press_viewer_key _ _ _ _ _ _ _ (history_up log_length cursor HL Hc)).
    rewrite IH; [|lia|pose proof (Z.mod_pos_bound (cursor - 1) log_length); lia].
    rewrite Zminus_mod_idemp_l.
    replace (cursor - 1 - Z.of_nat n) with (cursor - Z.of_nat (S n)) by lia.
    reflexivity.
Qed.

(** X16.  In a viewer on a log that is not empty, up and down undo each
    other from every cursor position, and [log_length] presses of up come
    back to the position they started from (a full wrap cycle); none of
    these keys takes a turn or changes anything but the cursor. *)
Theorem up_and_down_cycle_through_the_log
  (log_length cursor modifiers : Z) (en : Engine) :
  1 <= log_length -> 0 <= cursor <= log_length - 1 ->
  press_keys [ {| sym := KeySym.UP; mod_ := modifiers |};
               {| sym := KeySym.DOWN; mod_ := modifiers |} ]
    (set_event_handler (HistoryViewer log_length cursor) en)
  = Ok (set_event_handler (HistoryViewer log_length cursor) en) /\
  press_keys [ {| sym := KeySym.DOWN; mod_ := modifiers |};
               {| sym := KeySym.UP; mod_ := modifiers |} ]
    (set_event_handler (HistoryViewer log_length cursor) en)
  = Ok (set_event_handler (HistoryViewer log_length cursor) en) /\
  press_keys (repeat {| sym := KeySym.UP; mod_ := modifiers |} (Z.to_nat log_length))
    (set_event_handler (HistoryViewer log_length cursor) en)
  = Ok (set_event_handler (HistoryViewer log_length cursor) en).
Proof.
  intros HL Hc.
  pose proof (Z.mod_pos_bound (cursor - 1) log_length ltac:(lia)) as Hu.
  pose proof (Z.mod_pos_bound (cursor + 1) log_length ltac:(lia)) as Hd.
  assert (Eud : ((cursor - 1) mod log_length + 1) mod log_length = cursor).
  { rewrite Zplus_mod_idemp_l. replace (cursor - 1 + 1) with cursor by lia.
    apply Z.mod_small. lia. }
  assert (Edu : ((cursor + 1) mod log_length - 1) mod log_length = cursor).
  { rewrite Zminus_mod_idemp_l. replace (cursor + 1 - 1) with cursor by lia.
    apply Z.mod_small. lia. }
  assert (Ecycle : (cursor - Z.of_nat (Z.to_nat log_length)) mod log_length = cursor).
  { rewrite Z2Nat.id by lia.
    replace (cursor - log_length) with (cursor + (-1) * log_length) by lia.
    rewrite Z.mod_add by lia. apply Z.mod_small. lia. }
  split; [|split].
  - rewrite (press_viewer_key _ _ _ _ _ _ _ (history_up log_length cursor HL Hc)).
    rewrite (press_viewer_key _ _ _ _ _ _ _
               (history_down log_length ((cursor - 1) mod log_length) HL ltac:(lia))).
    rewrite Eud. reflexivity.
  - rewrite (press_viewer_key _ _ _ _ _ _ _ (history_down log_length cursor HL Hc)).
    rewrite (press_viewer_key _ _ _ _ _ _ _
               (history_up log_length ((cursor + 1) mod log_length) HL ltac:(lia))).
    rewrite Edu. reflexivity.
  - rewrite press_up_times by assumption. rewrite Ecycle. reflexivity.
Qed.

(** X17.  The history viewer never takes a turn, never ends the program
    and never touches anything but the handler slot: every key either
    moves the cursor, with [log_length] unchanged, or returns to the main
    game. *)
Theorem history_viewer_only_moves_or_closes
  (log_length cursor : Z) (event : KeyDown) (en : Engine) :
  exists h,
    handle_events (HistoryViewer log_length cursor) event en
    = Ok (false, set_event_handler h en) /\
    (h = MainGameEventHandler \/ exists cursor', h = HistoryViewer log_length cursor').
Proof.
  unfold handle_events, ev_keydown, HistoryViewer_ev_keydown.
  destruct (history_cursor log_length cursor (sym event)) as [c'|].
  - exists (HistoryViewer log_length c'). split; [reflexivity|]. right. eauto.
  - exists MainGameEventHandler. split; [reflexivity|]. now left.
Qed.

(** ** The inventory menu *)

Lemma item_lines_nth (fx fy : Z) (l : list Item) : forall (i : nat) (k : Z) item,
  nth_error l i = Some item ->
  nth_error (item_lines fx fy k l) i
  = Some (fx + 1, fy + (k + Z.of_nat i) + 1, ItemLine (ord_a + (k + Z.of_nat i)) item).
Proof.
  induction l as [|it l IH]; intros i k item Hi.
  - destruct i; discriminate.
  - destruct i as [|i]; cbn [nth_error item_lines] in *.
    + injection Hi as ->. rewrite Z.add_0_r. reflexivity.
    + rewrite (IH i (k + 1) item Hi). do 3 f_equal; [|f_equal]; lia.
Qed.

Lemma item_lines_rows (fx fy : Z) (l : list Item) : forall (k : Z) line,
  In line (item_lines fx fy k l) ->
  fst (fst line) = fx + 1 /\
  fy + k + 1 <= snd (fst line) <= fy + k + Z.of_nat (List.length l).
Proof.
  induction l as [|it l IH]; intros k line Hin; [destruct Hin|].
  cbn [item_lines In List.length] in *. destruct Hin as [<-|Hin].
  - cbn [fst snd]. lia.
  - apply IH in Hin. lia.
Qed.

(** X18.  The letters drawn in an inventory menu are the keys that select:
    the line of the item at index [i] shows the key of code
    [ord("a") + i], and for [i <= 26] pressing that key gives the
    item-selection callback on this very item.  Whatever the key, an
    item that is selected is at an index of at most 26: items further
    down the list are drawn but cannot be chosen. *)
Theorem menu_letters_match_selection_keys
  (mode : InventoryMode) (en : Engine) (i : nat) (item : Item) (modifiers : Z) :
  nth_error (items (player en)) i = Some item ->
  (exists px py,
     nth_error (inventory_lines mode en) i
     = Some (px, py, ItemLine (ord_a + Z.of_nat i) item)) /\
  ((i <= 26)%nat ->
   ev_keydown (inventory_handler mode)
     {| sym := ord_a + Z.of_nat i; mod_ := modifiers |} en
   = Ok (on_item_selected mode item en)) /\
  (forall event,
     fst (Inventory_ev_keydown mode event en) = None \/
     exists item',
       (exists j, (j <= 26)%nat /\ nth_error (items (player en)) j = Some item') /\
       Inventory_ev_keydown mode event en = on_item_selected mode item' en).
Proof.
  intros Hitem. split; [|split].
  - unfold inventory_lines.
    assert (Hlen : (i < List.length (items (player en)))%nat)
      by (apply nth_error_Some; congruence).
    destruct (Z.ltb_spec 0 (Z.of_nat (List.length (items (player en))))); [|lia].
    rewrite (item_lines_nth _ _ _ i 0 item Hitem). cbn [Z.add]. eauto.
  - intros Hi. rewrite inventory_handler_ev_keydown.
    unfold Inventory_ev_keydown. cbv zeta. cbn [sym].
    change KeySym.a with ord_a.
    replace (ord_a + Z.of_nat i - ord_a) with (Z.of_nat i) by lia.
    rewrite Nat2Z.id, Hitem.
    destruct (Z.leb_spec 0 (Z.of_nat i)); [|lia].
    destruct (Z.leb_spec (Z.of_nat i) 26); [reflexivity|lia].
  - intros event. unfold Inventory_ev_keydown. cbv zeta.
    destruct ((0 <=? sym event - KeySym.a) && (sym event - KeySym.a <=? 26)) eqn:Hg.
    + apply andb_true_iff in Hg as [H0 H26].
      apply Z.leb_le in H0, H26.
      destruct (nth_error (items (player en)) (Z.to_nat (sym event - KeySym.a)))
        as [item'|] eqn:Hsel.
      * right. exists item'. split; [|reflexivity].
        exists (Z.to_nat (sym event - KeySym.a)). split; [lia|exact Hsel].
      * now left.
    + left. unfold AskUser_ev_keydown, on_exit. case_if; reflexivity.
Qed.

(** X19.  The inventory frame never covers the column of the player: it is
    drawn at column 40 when the player is at column 30 or less and at
    column 0 otherwise, and is 25 or 26 columns wide.  It is at least 3
    rows high and every printed line lies on a row strictly inside it,
    one column right of its left edge. *)
Theorem inventory_frame_avoids_the_player (mode : InventoryMode) (en : Engine) :
  ~ (frame_x (inventory_frame mode en) <= x (player en)
     < frame_x (inventory_frame mode en) + frame_width (inventory_frame mode en)) /\
  3 <= frame_height (inventory_frame mode en) /\
  forall line,
    In line (inventory_lines mode en) ->
    fst (fst line) = frame_x (inventory_frame mode en) + 1 /\
    frame_y (inventory_frame mode en) < snd (fst line)
    < frame_y (inventory_frame mode en) + frame_height (inventory_frame mode en) - 1.
Proof.
  assert (Hwidth : 25 <= Z.of_nat (String.length (TITLE mode)) + 4 <= 26)
    by (destruct mode; cbn; lia).
  unfold inventory_lines, inventory_frame.
  cbn [frame_x frame_y frame_width frame_height].
  set (n := Z.of_nat (List.length (items (player en)))) in *.
  split; [|split].
  - destruct (Z.leb_spec (x (player en)) 30); lia.
  - destruct (Z.leb_spec (n + 2) 3); lia.
  - intros line Hin. destruct (Z.ltb_spec 0 n).
    + apply item_lines_rows in Hin. fold n in Hin.
      destruct (Z.leb_spec (n + 2) 3); lia.
    + destruct Hin as [<-|[]]. cbn [fst snd].
      destruct (Z.leb_spec (n + 2) 3); lia.
Qed.

(** ** The main game *)

(** X20.  In the main game every movement key, from the arrows, the
    numpad or the vi keys, gives a bump action in the direction of the
    key, which is a single non-null step, and touches nothing in the
    engine. *)
Theorem movement_keys_bump_one_step (key modifiers : Z) (d : Z * Z) (en : Engine) :
  lookup key MOVE_KEYS = Some d ->
  ev_keydown MainGameEventHandler {| sym := key; mod_ := modifiers |} en
  = Ok (Some (BumpAction (fst d) (snd d)), en) /\
  unit_step d.
Proof.
  intros Hd. split; [|eapply move_keys_unit_step; exact Hd].
  unfold ev_keydown, MainGame_ev_keydown. cbv zeta. cbn [sym]. rewrite Hd.
  destruct d; reflexivity.
Qed.

(** X21.  Opening the history viewer or an inventory menu from the main
    game and leaving it with Escape takes no turn and gives back the very
    same engine; opening the look handler and leaving it changes only the
    cursor, which is left on the player. *)
Theorem open_and_cancel_changes_nothing (key modifiers : Z) (en : Engine) :
  event_handler en = MainGameEventHandler ->
  In key [KeySym.v; KeySym.i; KeySym.d] ->
  press_keys [ {| sym := key; mod_ := modifiers |};
               {| sym := KeySym.ESCAPE; mod_ := modifiers |} ] en
  = Ok en /\
  press_keys [ {| sym := KeySym.SLASH; mod_ := modifiers |};
               {| sym := KeySym.ESCAPE; mod_ := modifiers |} ] en
  = Ok (set_mouse_location (x (player en), y (player en)) en).
Proof.
  intros Hh Hkey. destruct en as [h msgs loc pl w ht hid]. cbn in Hh. subst h.
  split.
  - cbn [In] in Hkey. destruct Hkey as [<-|[<-|[<-|[]]]]; reflexivity.
  - reflexivity.
Qed.

End Handlers.

(** ** Runs in the sample world *)

Lemma modifier_keys_leave_menus_open_witness :
  ask_user LookHandler = true /\ In KeySym.LSHIFT modifier_keys /\
  @handle_events sample_world sample_collaborators LookHandler
    {| sym := KeySym.LSHIFT; mod_ := Modifier.LSHIFT |}
    (sample_engine LookHandler welcome [])
  = Ok (false, sample_engine LookHandler welcome []).
Proof.
  assert (Hin : In KeySym.LSHIFT modifier_keys) by (now left).
  split; [reflexivity|]. split; [exact Hin|].
  exact (@modifier_keys_leave_menus_open sample_world sample_collaborators
           LookHandler KeySym.LSHIFT Modifier.LSHIFT
           (sample_engine LookHandler welcome []) eq_refl Hin).
Defined.

Lemma movement_keeps_cursor_in_map_witness :
  1 <= 80 /\ 1 <= 50 /\
  lookup KeySym.RIGHT MOVE_KEYS <> None /\
  exists c,
    @handle_events sample_world sample_collaborators LookHandler
      {| sym := KeySym.RIGHT; mod_ := Modifier.LCTRL |}
      (sample_engine LookHandler welcome [])
    = Ok (false, set_mouse_location c (sample_engine LookHandler welcome [])) /\
    @in_bounds sample_world (sample_engine LookHandler welcome []) c = true.
Proof.
  assert (Hkey : lookup KeySym.RIGHT MOVE_KEYS <> None) by (vm_compute; discriminate).
  split; [lia|]. split; [lia|]. split; [exact Hkey|].
  exact (@movement_keeps_cursor_in_map sample_world sample_collaborators
           {| sym := KeySym.RIGHT; mod_ := Modifier.LCTRL |}
           (sample_engine LookHandler welcome []) ltac:(cbn; lia) ltac:(cbn; lia) Hkey).
Defined.

Lemma plain_movement_is_one_step_witness :
  lookup KeySym.k MOVE_KEYS = Some (0, -1) /\
  @handle_events sample_world sample_collaborators LookHandler
    {| sym := KeySym.k; mod_ := Modifier.NONE |}
    (sample_engine LookHandler welcome [])
  = Ok (false, set_mouse_location (10, 9) (sample_engine LookHandler welcome [])).
Proof.
  split; [reflexivity|].
  exact (proj1 (@plain_movement_is_one_step sample_world sample_collaborators
                  KeySym.k (0, -1) (sample_engine LookHandler welcome [])
                  eq_refl eq_refl)).
Defined.

Lemma look_cursor_never_leaves_the_map_witness :
  Forall cursor_event
    [ KeyDownEvent {| sym := KeySym.RIGHT; mod_ := Modifier.LCTRL |};
      MouseMotionEvent {| motion_tile := (100, 3) |};
      KeyDownEvent {| sym := KeySym.KP_7; mod_ := Modifier.NONE |} ] /\
  exists c,
    @handle_all sample_world sample_collaborators
      [ KeyDownEvent {| sym := KeySym.RIGHT; mod_ := Modifier.LCTRL |};
        MouseMotionEvent {| motion_tile := (100, 3) |};
        KeyDownEvent {| sym := KeySym.KP_7; mod_ := Modifier.NONE |} ]
      (sample_engine LookHandler welcome [])
    = Ok (set_mouse_location c (sample_engine LookHandler welcome [])) /\
    @in_bounds sample_world (sample_engine LookHandler welcome []) c = true.
Proof.
  assert (Hev : Forall cursor_event
    [ KeyDownEvent {| sym := KeySym.RIGHT; mod_ := Modifier.LCTRL |};
      MouseMotionEvent {| motion_tile := (100, 3) |};
      KeyDownEvent {| sym := KeySym.KP_7; mod_ := Modifier.NONE |} ]).
  { repeat constructor; vm_compute; discriminate. }
  split; [exact Hev|].
  exact (@look_cursor_never_leaves_the_map sample_world sample_collaborators _
           (sample_engine LookHandler welcome [])
           eq_refl ltac:(cbn; lia) ltac:(cbn; lia) eq_refl Hev).
Defined.

Lemma up_and_down_cycle_through_the_log_witness :
  1 <= 3 /\ 0 <= 2 <= 3 - 1 /\
  @press_keys sample_world sample_collaborators
    (repeat {| sym := KeySym.UP; mod_ := Modifier.NONE |} (Z.to_nat 3))
    (set_event_handler (HistoryViewer 3 2) (sample_engine MainGameEventHandler welcome []))
  = Ok (set_event_handler (HistoryViewer 3 2)
          (sample_engine MainGameEventHandler welcome [])).
Proof.
  split; [lia|]. split; [lia|].
  exact (proj2 (proj2 (@up_and_down_cycle_through_the_log sample_world
                         sample_collaborators 3 2 Modifier.NONE
                         (sample_engine MainGameEventHandler welcome [])
                         ltac:(lia) ltac:(lia)))).
Defined.

Lemma menu_letters_match_selection_keys_witness :
  nth_error
    (items (player (sample_engine InventoryActivateHandler welcome
                      ["potion"; "scroll"]%string))) 1
  = Some "scroll"%string /\
  @ev_keydown sample_world sample_collaborators InventoryActivateHandler
    {| sym := KeySym.b; mod_ := Modifier.NONE |}
    (sample_engine InventoryActivateHandler welcome ["potion"; "scroll"]%string)
  = Ok (Some (UseIt "scroll"%string),
        sample_engine InventoryActivateHandler welcome ["potion"; "scroll"]%string).
Proof.
  split; [reflexivity|].
  exact (proj1 (proj2 (@menu_letters_match_selection_keys sample_world
                         sample_collaborators Activate
                         (sample_engine InventoryActivateHandler welcome
                            ["potion"; "scroll"]%string)
                         1%nat "scroll"%string Modifier.NONE eq_refl))
           ltac:(lia)).
Defined.

Lemma movement_keys_bump_one_step_witness :
  lookup KeySym.KP_7 MOVE_KEYS = Some (-1, -1) /\
  @ev_keydown sample_world sample_collaborators MainGameEventHandler
    {| sym := KeySym.KP_7; mod_ := Modifier.NONE |}
    (sample_engine MainGameEventHandler welcome [])
  = Ok (Some (Bump (-1) (-1)), sample_engine MainGameEventHandler welcome []).
Proof.
  split; [reflexivity|].
  exact (proj1 (@movement_keys_bump_one_step sample_world sample_collaborators
                  KeySym.KP_7 Modifier.NONE (-1, -1)
                  (sample_engine MainGameEventHandler welcome []) eq_refl)).
Defined.

Lemma open_and_cancel_changes_nothing_witness :
  event_handler (sample_engine MainGameEventHandler welcome ["potion"]%string)
  = MainGameEventHandler /\
  In KeySym.i [KeySym.v; KeySym.i; KeySym.d] /\
  @press_keys sample_world sample_collaborators
    [ {| sym := KeySym.i; mod_ := Modifier.NONE |};
      {| sym := KeySym.ESCAPE; mod_ := Modifier.NONE |} ]
    (sample_engine MainGameEventHandler welcome ["potion"]%string)
  = Ok (sample_engine MainGameEventHandler welcome ["potion"]%string).
Proof.
  assert (Hin : In KeySym.i [KeySym.v; KeySym.i; KeySym.d]) by (right; now left).
  split; [reflexivity|]. split; [exact Hin|].
  exact (proj1 (@open_and_cancel_changes_nothing sample_world sample_collaborators
                  KeySym.i Modifier.NONE
                  (sample_engine MainGameEventHandler welcome ["potion"]%string)
                  eq_refl Hin)).
Defined.

End InputExtra.
